(* ===== verification/_CoqProject ===== *)
-Q . S2P
Prelude.v
Simulation.v
Iced.v
Quote.v
Serde.v
Fetcher.v
Trees.v
Async.v
App.v
Spec.v
Runtime.v
Main.v
Alike.v
Accounting.v
History.v
Program.v
Schedule.v
Refinement.v
