(* ===== verification/Prelude.v ===== *)
(** * rust-quotes: a verification development

    The program (src/src/main.rs, 163 lines of Rust on the iced GUI
    toolkit) is a desktop window that fetches a random quote over HTTP,
    shows it, and offers a button to fetch another one.  It has three
    parts and an entry point:

    - the application state machine [impl Application for Quotes]: the
      enum [Quotes] (Loading, Loaded, Errored), the messages
      [Message] (QuoteFound, Search) and the trait methods [new],
      [title] and [update];
    - the rendering: [view] with the helpers [Quote::view] and
      [button], which build the widget tree of each state;
    - the quote fetcher [Quote::search]: one HTTP GET of a fixed URL,
      the decoding of the body into the local struct [Entry], and the
      collapse of every failure into [Error::APIError] by
      [impl From<reqwest::Error> for Error], which logs the cause with
      [dbg!].

    - the entry point [main], which runs the toolkit's loop on the
      application with the default settings.

    The parts interact only through the toolkit: [new] and [update]
    hand the run loop a [Command] that holds the future
    [Quote::search()], the run loop drives it, and its result comes
    back to [update] as the message [QuoteFound]; after every batch of
    messages the run loop asks [title] and [view] for the window.

    ** Files

    - [Prelude] (this file): Rust's [Result] as [result] with the [?]
      operator ([question], notation [let? x := e in k] in scope
      [rust_scope]), the conversion classes [From] and [FromLogged]
      (a conversion that writes to standard error, with the operator
      [question_logged], notation [let?! x := e in k]), facts on
      strings, runs of a partial step function over a list of inputs
      ([run], [reachable_from]) with the invariant principle
      [reachable_invariant], the tactics and the hint databases
      [quotes] and [quotes_rw].
    - [Simulation]: machines that take their inputs one at a time
      ([Machine]: a partial step function, what an input shows, a
      start), what a run shows ([trace]), simulations in which one
      step is a run, possibly empty, of the other machine
      ([simulates]), their lifting to runs and their composition, and
      refinement as inclusion of what machines show ([refines], a
      preorder).
    - [Iced]: the part of the iced toolkit the program calls, modelled
      from its documented behaviour: the widget tree [Element], each
      widget with the builder calls made on it ([Attr], [call],
      notation [e |> a]), what a tree shows ([texts]), which messages
      a click can produce ([on_presses]), [Command] with the one
      action the program uses ([Perform]), the trait [Application] as
      a typeclass, and of [Settings] the one field the loop of
      [Program] reads ([exit_on_close_request], with its default).
    - [Quote]: [struct Quote] and [enum Error].
    - [Serde]: JSON documents ([json]) and the decoder that
      [#[derive(Deserialize)]] generates for [Entry] ([visit_map],
      [visit_seq], [Entry_deserialize]), modelled from serde's
      documented behaviour.
    - [Fetcher]: [Quote::search] ([Quote_search], [fetch_entry],
      [url], [Quote_of_Entry]) and the [From] impl ([Error_from]) of
      main.rs, over a model of the HTTP client: a [Network] answers a
      URL with an error or a [Response] of a status code and a body,
      and [Response_json] decodes what was read of the body
      ([decode_body]).
    - [Trees]: interaction trees for asynchronous code: the notation
      [await x := t in k] for [.await], the [?] operator of an async
      block ([question_async]), and the runner [exec] that performs
      the events of a tree against a world for a bounded number of
      steps or one node at a time ([advance]), with its equations
      and its agreement with the interpreter of the ITree library
      ([exec_interp]).
    - [Async]: [Quote::search] once more, as the interaction tree
      [search_async] (with [fetch_entry_async], [Response_json_async]
      and [from_async]) whose events [fetchE] are the awaited GET, the
      awaited body of the response and the line of [dbg!]; the world
      outside the process ([Outside]) is the network of the moment
      and the list of effects so far, and [in_order] recognises the
      effects of fetches that ran one after the other.
    - [App]: [Quotes], [Message], [Flags] and the methods [new],
      [title], [update], [view], [Quote_view], [button] of main.rs,
      line by line, with the instance [Quotes_Application] of the
      toolkit's trait.
    - [Spec]: the transition table of the specification as an
      inductive relation [spec_step], the proof that [update]
      implements it, and the table with the fetches in flight of
      section 5 as the machine [system].
    - [Runtime]: the toolkit's run loop as a partial step function
      [handle] on [Runtime] records (application state, futures in
      flight, title bar, tree on screen, standard error), generic in
      the application and in the [Executor] that says what a future
      returns; the interface [RequestReply] an application offers the
      loop, and the invariant [disciplined] proved against it.
    - [Main]: the run loop instantiated at [Quotes] with the fetcher as
      executor ([main]), the invariant [coherent] of the running
      program, the proof that it holds of exactly the reachable
      states, the instance of [RequestReply], and the specification's
      scenarios as runs.
    - [Alike]: the networks the program cannot tell apart ([alike]:
      the same error, or responses whose bodies have the same fields
      of [Entry], whatever the status code, the order of the members
      and the other members), as equivalence relations with [Proper]
      instances for the decoder, the fetcher and the run loop.
    - [Accounting]: the counts of fetches started ([fetches]),
      completed, failed and of clicks along the runs of [main].
    - [History]: what a run leaves behind, told from its inputs: the
      errors of the failed fetches among them ([causes]), the result
      a state holds ([outcome]), and inputs that end with a
      completion and redraws ([completed_last]).
    - [Program]: [main] as one interaction tree [main_async], which
      is [run_async] at the default settings: the loop of the toolkit
      as [ITree.iter] of [iteration] around [new], [update], [title]
      and [view], which joins the tree of [Async] when a fetch
      completes and ends on a close request when the settings say so;
      its events are what the process asks of the window system
      ([windowE]) and of the network; it runs on a [Desktop] that
      scripts the inputs.
    - [Schedule]: the loop with the executor beside it ([Threads],
      [tick]): a spawned future is a task ([search_task], the tree of
      [Quote::search] with its wrapping), and a poll passes one node
      of a task ([advance] of [Trees]) against the network of the
      moment, between the clicks and the redraws; the relation
      [serial] between the threads and the states of [Runtime], with
      the [phase] the one task is in.
    - [Refinement]: the run loop ([runtime]) and the loop with its
      executor ([threads]) as machines that show the events of the
      specification, and the simulations between them and down to
      [system].

    ** Correspondence with the code

    A Rust [String] is a Rocq [string], a sequence of bytes, UTF-8 for
    text: [" - Pokédex"] has 11 bytes.  [format!] is [String.append].
    A [&mut self] method is a function that returns the new state next
    to its result: [update] returns the pair of the state after the
    call and the command.  An early return through [?] is [question];
    when the conversion of the error logs, the lines logged are
    returned next to the result ([Logged]).  The call of the
    [async fn] [Quote::search()] is the value [SearchFuture] of the
    indexed type [Future]; what it returns is decided when the run
    loop completes it, by running [Quote_search] against the network
    of that moment.  Pixel sizes are [nat]; the colour channels of
    [Color] are rationals (0.5 is exact in f32).  A builder call
    [.size(40)] is [|> size 40]: a widget keeps the list of its calls
    in order, and the toolkit's defaults are not modelled.  The body
    of an HTTP response is kept as the JSON document its bytes denote
    ([ResponseBody]), with the members of an object in the order and
    multiplicity they were written.  In the interaction trees an
    [.await] on the outside world is an event ([Get], [ReadBody],
    [Next]) and so is every output ([Dbg], [SetTitle], [Draw]).  In [Runtime] and
    [Program] a future's effects happen when the loop joins it, at
    its completion; in [Schedule] they happen poll by poll, the
    request first, while the window goes on.

    ** Theorems

    - [App]: the state and the command of [update] on every branch;
      the count of fetches the state waits for; [title] always ends in
      the fixed suffix, and two states have the same title exactly
      when they show the same author or the author is the label of
      the other state ([title_eq_iff]); the texts and the messages of
      [view] in each state; [view] is injective.
    - [Serde]: the decoder accepts exactly the objects with one
      [content] and one [author] string member, whatever their order
      and the unknown members around them, and the arrays of two
      strings; decoding the document of an entry gives the entry
      back.
    - [Fetcher]: [Quote_search] succeeds exactly on a response whose
      body decodes, with the quote of the decoded entry and nothing
      logged; it fails with [APIError] and one [dbg!] line of the
      cause otherwise; it makes one request, to the fixed URL; every
      quote is the result on some network; the status code of the
      response has no influence.
    - [Async]: [search_async] returns within four steps on every
      network, and four is the least bound; interpreted by the ITree
      library it is the computation that returns what the function
      [Quote_search] returns; it makes one request, first, and writes
      one line exactly when it fails.
    - [Spec]: [update] refines the transition table, along single
      steps and along runs, and every step of the table is a step of
      [update].
    - [Runtime]: for every application with the [RequestReply]
      interface, the number of futures in flight is the number the
      state waits for, in every reachable state; a batch leaves the
      title bar and the screen in step with the state (the loop ends
      a batch with a refresh, whatever the application).
    - [Main]: every reachable state of the program is [coherent] (at
      most one fetch in flight, and one exactly in state Loading; the
      window shows some state's title and tree; an error has its
      cause on standard error) and every coherent state is reachable;
      which inputs are enabled in a reachable state, and that one
      always is; the specification's scenarios, for every network on
      which the fetch succeeds or fails and, for the retry, every
      number of clicks.
    - [Runtime], [Accounting]: for every application no future is
      lost or completed twice ([started_conservation]); for the
      program, completions <= fetches <= completions + 1, fetches <=
      clicks + 1, and standard error has one line per failed fetch.
    - [History]: standard error is the list of the errors of the
      failed fetches, in the order of their completions
      ([stderr_history]); a quote or an error in the state is the
      result of the last completion, with redraws only after it
      ([shown_is_latest]).
    - [Program]: on every finite script [main_async] returns [Ok(())]
      within eight steps per input and five more; on the scripts
      [handle] accepts it leaves the window, standard error and the
      requests that the step function computes; the runner and the
      library's interpreter agree on it; its requests and lines are
      in order on every script.
    - [Schedule]: every schedule of clicks, redraws and polls is a
      run of [handle] with the same clicks, state, title and screen
      ([schedule_serializable], by a simulation in which a poll is no
      input or the completion of the fetch); there is one task
      exactly in state Loading and the effects are in order whatever
      the interleaving; four polls complete a fetch in flight, and
      nothing but the executor ends the wait: clicks and redraws
      leave a state that is Loading as it is, task and effects
      included ([loading_until_polled]).
    - [Alike]: runs on networks that are alike are equal
      ([run_alike], by rewriting with the relation).
    - [Refinement]: end to end, the messages that go through [update]
      along any run of the run loop, and along any schedule of the
      loop with its executor, are a run of the specification's
      [system] that ends in the program's state and number of fetches
      in flight ([main_refines_system], [schedule_refines_system]);
      every behaviour of the program is a behaviour of the
      specification ([threads_refine_system]).

    ** Bounds and fuel

    The functions of the step model are structurally recursive, and
    a run of the loop is a fold over a finite list of inputs;
    [never_stuck] shows that no run ends in a stuck state.  The
    interaction trees are run by [exec] with fuel, one unit for every
    node of the tree passed.  [Quote::search] needs 4 units (the GET,
    the body, the [dbg!] line, the return), shown enough and least.
    The program needs at most 8 units per input (the wait, at most 5
    for a joined fetch and the wrapping of its output, the return of
    the body, the silent step of the loop) and 5 more (the first
    title and tree and their return, the close request, the return
    of the loop); [fuel_for] is that bound.  Every theorem holds for
    all larger fuel ([exec_more]), two runs that return agree
    whatever their fuel ([exec_agree]), and [exec_interp] transfers
    each result to the library's interpreter, which has no fuel.  A
    script is finite and the window is closed at its end, which ends
    the loop at the default settings.  A task of [Schedule] returns
    within four polls, the request and three more.

    ** Not modelled

    Window creation, layout, drawing and event decoding inside iced
    (a click is the index of a message of [on_presses]); the
    commands of iced other than [Command::perform] and
    [Command::none], which main.rs does not use (a [Command] of the
    model cannot close the window or end the loop); the theme and
    the settings other than [exit_on_close_request]; the failures
    of [Application::run] at startup ([main_async] never returns
    [Err]); TCP, TLS, redirects and the HTTP wire format inside
    reqwest (a [Network] gives the outcome of a GET); the parsing of
    JSON text, because neither main.rs nor the specification fixes
    the grammar and the limits of serde_json's reader (a body that is
    not JSON text is the value [NotJson], and a body that is JSON
    text is the document it denotes); the text [dbg!] formats (a line
    is the expression and the value logged); threads of the executor
    that run at the same time as [update] (in [Schedule] a poll and a
    call of [update] alternate, which loses nothing here: the loop
    owns the application state and a task shares nothing with it); a
    network that never answers, as a value of [Network] (it is the
    schedule in which the task is not polled to its end:
    [loading_until_polled] shows that the program then stays in
    Loading, and [enabled_inputs] that the user can do nothing once
    the loading screen is drawn).  All of main.rs is modelled; what
    is listed here is inside the libraries it calls. *)

From stdpp Require Import prelude strings relations.

(** Generic definitions shared by the components: results, strings,
    runs of a step function, tactics and hint databases. *)

Create HintDb quotes discriminated.
Create Rewrite HintDb quotes_rw.

Declare Scope rust_scope.
Delimit Scope rust_scope with rust.

(** ** Rust's [Result<T, E>] *)

Inductive result (T E : Type) : Type :=
| Ok (t : T)
| Err (e : E).
Arguments Ok {T E} t.
Arguments Err {T E} e.

#[export] Instance result_eq_dec {T E} `{EqDecision T, EqDecision E} :
  EqDecision (result T E).
Proof. solve_decision. Defined.

#[export] Instance result_inhabited {T E} `{Inhabited E} : Inhabited (result T E) :=
  populate (Err inhabitant).

Definition is_ok {T E} (r : result T E) : bool :=
  match r with Ok _ => true | Err _ => false end.

Definition and_then {T U E} (r : result T E) (k : T -> result U E) : result U E :=
  match r with Ok t => k t | Err e => Err e end.

Definition map_err {T E F} (f : E -> F) (r : result T E) : result T F :=
  match r with Ok t => Ok t | Err e => Err (f e) end.

(** [impl From<A> for B], with the blanket [impl<T> From<T> for T]. *)
Class From (A B : Type) : Type := from : A -> B.
#[export] Hint Mode From ! ! : typeclass_instances.
#[export] Instance From_refl (A : Type) : From A A | 10 := fun a => a.

(** The [?] operator: on [Err e] the enclosing function returns
    [Err (From::from e)]. *)
Definition question {T U E F} `{From E F}
    (r : result T E) (k : T -> result U F) : result U F :=
  and_then (map_err from r) k.

Arguments is_ok {T E} !r /.
Arguments and_then {T U E} !r k /.
Arguments map_err {T E F} f !r /.
Arguments question {T U E F _} !r k /.

Notation "'let?' x ':=' e 'in' k" := (question e (fun x => k))
  (at level 10, x name, e at level 100, k at level 200) : rust_scope.

(** ** Functions that write to standard error *)

(** A value together with the lines written while computing it. *)
Definition Logged (L A : Type) : Type := A * list L.

Definition quiet {L A} (a : A) : Logged L A := (a, []).

(** A [From] implementation whose body writes to standard error. *)
Class FromLogged (L A B : Type) : Type := from_logged : A -> Logged L B.
#[export] Hint Mode FromLogged - ! ! : typeclass_instances.

(** The [?] operator when the conversion writes: the lines of the
    conversion are the lines of the early return. *)
Definition question_logged {L T U E F} `{FromLogged L E F}
    (r : result T E) (k : T -> Logged L (result U F)) : Logged L (result U F) :=
  match r with
  | Ok t => k t
  | Err e => let '(e', out) := from_logged e in (Err e', out)
  end.
Arguments question_logged {L T U E F _} !r k /.

Notation "'let?!' x ':=' e 'in' k" := (question_logged e (fun x => k))
  (at level 10, x name, e at level 100, k at level 200) : rust_scope.

(** ** Strings *)

(** [str::ends_with]. *)
Definition ends_with (s t : string) : bool :=
  bool_decide (String.list_ascii_of_string t `suffix_of` String.list_ascii_of_string s).

(** ** Runs of a partial step function *)

Section run.
Context {S I : Type} (step : I -> S -> option S).

Fixpoint run (ins : list I) (s : S) : option S :=
  match ins with
  | [] => Some s
  | i :: ins => s' ← step i s; run ins s'
  end.

Definition reachable_from (s0 s : S) : Prop := exists ins, run ins s0 = Some s.
End run.

(** ** Tactics *)

Ltac invert H := inversion H; subst; clear H.

(** Both directions of an "is [Ok]/[Err] iff" statement, once the
    result is known. *)
Ltac result_iff :=
  split;
  [ intros ?; simplify_eq/=; eauto 6
  | intros ?;
    repeat match goal with
           | H : ex _ |- _ => destruct H
           | H : _ \/ _ |- _ => destruct H
           | H : _ /\ _ |- _ => destruct H
           end; simplify_eq/=; eauto ].

Ltac case_result :=
  match goal with
  | |- context [match ?r with Ok _ => _ | Err _ => _ end] => destruct r eqn:?
  | H : context [match ?r with Ok _ => _ | Err _ => _ end] |- _ => destruct r eqn:?
  end.

Ltac simpl_result := repeat (case_result; simplify_eq/=); try done.

(** ** Lemmas on results *)

Lemma ex_ok_eq {T E} (t : T) (P : T -> Prop) :
  (exists t', @Ok T E t = Ok t' /\ P t') <-> P t.
Proof. split; [by intros (? & [= <-] & ?) | eauto]. Qed.

Lemma False_or_l (P Q : Prop) : ~ P -> (P \/ Q <-> Q).
Proof. tauto. Qed.

Section result_lemmas.
Context {T U V E F : Type}.
Implicit Types (r : result T E) (k : T -> result U E).

Lemma and_then_Ok_l (t : T) k : and_then (Ok t) k = k t.
Proof. done. Qed.

Lemma and_then_Ok_r r : and_then r Ok = r.
Proof. by destruct r. Qed.

Lemma and_then_assoc r k (h : U -> result V E) :
  and_then (and_then r k) h = and_then r (fun t => and_then (k t) h).
Proof. by destruct r. Qed.

Lemma and_then_is_ok r k (u : U) :
  and_then r k = Ok u <-> exists t, r = Ok t /\ k t = Ok u.
Proof. destruct r; result_iff. Qed.

Lemma map_err_is_ok (f : E -> F) r (t : T) : map_err f r = Ok t <-> r = Ok t.
Proof. destruct r; result_iff. Qed.

Lemma map_err_is_err (f : E -> F) r (e' : F) :
  map_err f r = Err e' <-> exists e, r = Err e /\ e' = f e.
Proof. destruct r; result_iff. Qed.

Lemma question_Ok `{From E F} r (k : T -> result U F) (u : U) :
  question r k = Ok u <-> exists t, r = Ok t /\ k t = Ok u.
Proof. unfold question. destruct r; result_iff. Qed.

Lemma question_Err `{From E F} r (k : T -> result U F) (e' : F) :
  question r k = Err e' <->
  (exists e, r = Err e /\ e' = from e) \/ (exists t, r = Ok t /\ k t = Err e').
Proof. unfold question. destruct r; result_iff. Qed.
End result_lemmas.

#[export] Hint Rewrite @and_then_Ok_l @and_then_Ok_r : quotes_rw.

(** ** Lemmas on strings *)

Lemma list_ascii_of_string_app (s t : string) :
  String.list_ascii_of_string (s ++ t)
  = String.list_ascii_of_string s ++ String.list_ascii_of_string t.
Proof. induction s as [|a s IH]; [done|]. simpl. by rewrite IH. Qed.

Lemma list_ascii_of_string_inj (s t : string) :
  String.list_ascii_of_string s = String.list_ascii_of_string t -> s = t.
Proof.
  intros E. rewrite <- (String.string_of_list_ascii_of_string s), E.
  apply String.string_of_list_ascii_of_string.
Qed.

Lemma list_ascii_of_string_length (s : string) :
  length (String.list_ascii_of_string s) = String.length s.
Proof. induction s; simpl; congruence. Qed.

Lemma string_app_length (s t : string) :
  String.length (s ++ t) = String.length s + String.length t.
Proof.
  by rewrite <- !list_ascii_of_string_length, list_ascii_of_string_app, length_app.
Qed.

Lemma string_app_assoc (s t u : string) : ((s ++ t) ++ u = s ++ (t ++ u))%string.
Proof.
  apply list_ascii_of_string_inj.
  by rewrite !list_ascii_of_string_app, (assoc_L (++)).
Qed.

Lemma string_app_nil_r (s : string) : (s ++ "" = s)%string.
Proof.
  apply list_ascii_of_string_inj.
  rewrite list_ascii_of_string_app. apply (right_id_L [] (++)).
Qed.

(** Two strings with the same suffix appended are equal when the
    results are. *)
Lemma string_app_inv_tail (s1 s2 t : string) :
  (s1 ++ t = s2 ++ t)%string -> s1 = s2.
Proof.
  intros E. apply list_ascii_of_string_inj.
  apply (f_equal String.list_ascii_of_string) in E.
  rewrite !list_ascii_of_string_app in E. by apply (inj (.++ _)) in E.
Qed.

Lemma ends_with_iff (s t : string) :
  ends_with s t = true <-> exists p, s = (p ++ t)%string.
Proof.
  unfold ends_with. rewrite bool_decide_eq_true. split.
  - intros [k E]. exists (String.string_of_list_ascii k).
    apply list_ascii_of_string_inj.
    by rewrite list_ascii_of_string_app, String.list_ascii_of_string_of_list_ascii.
  - intros [p ->]. exists (String.list_ascii_of_string p).
    apply list_ascii_of_string_app.
Qed.

Lemma ends_with_app (p t : string) : ends_with (p ++ t) t = true.
Proof. apply ends_with_iff. by exists p. Qed.

#[export] Hint Rewrite string_app_length string_app_nil_r : quotes_rw.
#[export] Hint Resolve ends_with_app : quotes.

(** ** Lemmas on runs *)

Section run_lemmas.
Context {S I : Type} (step : I -> S -> option S).
Implicit Types (s : S) (ins : list I).

Lemma run_app ins1 ins2 s :
  run step (ins1 ++ ins2) s = s' ← run step ins1 s; run step ins2 s'.
Proof.
  revert s. induction ins1 as [|i ins1 IH]; intros s; simpl; [done|].
  destruct (step i s); simpl; [apply IH | done].
Qed.

Lemma run_snoc ins i s :
  run step (ins ++ [i]) s = s' ← run step ins s; step i s'.
Proof.
  rewrite run_app. destruct (run step ins s) as [s'|]; simpl; [|done].
  by destruct (step i s').
Qed.

Lemma reachable_from_refl s : reachable_from step s s.
Proof. by exists []. Qed.

Lemma reachable_from_step s0 s s' i :
  reachable_from step s0 s -> step i s = Some s' -> reachable_from step s0 s'.
Proof.
  intros [ins Hins] Hstep. exists (ins ++ [i]).
  by rewrite run_snoc, Hins.
Qed.

Lemma reachable_from_trans s0 s1 s2 :
  reachable_from step s0 s1 -> reachable_from step s1 s2 ->
  reachable_from step s0 s2.
Proof.
  intros [ins1 H1] [ins2 H2]. exists (ins1 ++ ins2).
  by rewrite run_app, H1.
Qed.

(** A property kept by every enabled step holds after every run. *)
Lemma run_invariant (P : S -> Prop) :
  (forall i s s', P s -> step i s = Some s' -> P s') ->
  forall ins s s', P s -> run step ins s = Some s' -> P s'.
Proof.
  intros Hstep ins. induction ins as [|i ins IH]; intros s s' Hs Hrun;
    simplify_eq/=; [done|].
  destruct (step i s) as [s1|] eqn:E; simplify_eq/=. eauto.
Qed.

Lemma reachable_invariant (P : S -> Prop) s0 :
  P s0 ->
  (forall i s s', P s -> step i s = Some s' -> P s') ->
  forall s, reachable_from step s0 s -> P s.
Proof. intros H0 Hstep s [ins Hrun]. by eapply run_invariant. Qed.
End run_lemmas.
