(* ===== verification/Simulation.v ===== *)
(** Machines that take their inputs one at a time, what their runs
    show, and simulations between them: one step of a machine is a
    run, possibly empty, of another that shows the same.  A machine
    refines another when everything it can show the other can show;
    refinement is a preorder and a simulation proves it. *)

From stdpp Require Import prelude.
From S2P Require Import Prelude.

(** ** Machines *)

(** A machine over the observations [O]: a partial step function,
    what an input shows in the state it meets, and a start. *)
Record Machine (O : Type) : Type := mkMachine {
  m_state : Type;
  m_input : Type;
  m_step : m_input -> m_state -> option m_state;
  m_out : m_input -> m_state -> list O;
  m_init : m_state
}.
Arguments mkMachine {O m_state m_input} m_step m_out m_init.
Arguments m_state {O} _.
Arguments m_input {O} _.
Arguments m_step {O} _ _ _.
Arguments m_out {O} _ _ _.
Arguments m_init {O} _.

Section trace.
Context {S I O : Type} (step : I -> S -> option S) (out : I -> S -> list O).

(** What a run shows: the output of each input in the state it meets,
    up to the first input that is refused. *)
Fixpoint trace (ins : list I) (s : S) : list O :=
  match ins with
  | [] => []
  | i :: ins =>
      match step i s with
      | Some s' => out i s ++ trace ins s'
      | None => []
      end
  end.
End trace.

(** What a machine can show from a state, and from its start. *)
Definition shows {O : Type} (M : Machine O) (s : m_state M) (tr : list O) : Prop :=
  exists ins s', run (m_step M) ins s = Some s' /\ trace (m_step M) (m_out M) ins s = tr.

Definition behaviour {O : Type} (M : Machine O) (tr : list O) : Prop :=
  shows M (m_init M) tr.

(** [M1] refines [M2]: what [M1] can show, [M2] can show. *)
Definition refines {O : Type} (M1 M2 : Machine O) : Prop :=
  forall tr, behaviour M1 tr -> behaviour M2 tr.

(** One step of [M1] from a state related to a state of [M2] is a run
    of [M2] to a related state that shows the same. *)
Definition simulates {O : Type} (M1 M2 : Machine O)
    (R : m_state M1 -> m_state M2 -> Prop) : Prop :=
  forall i s s' t,
    R s t -> m_step M1 i s = Some s' ->
    exists js t',
      run (m_step M2) js t = Some t' /\ R s' t'
      /\ trace (m_step M2) (m_out M2) js t = m_out M1 i s.

(** ** Lemmas *)

Section trace_lemmas.
Context {S I O : Type} (step : I -> S -> option S) (out : I -> S -> list O).

Lemma trace_app (ins1 ins2 : list I) (s s' : S) :
  run step ins1 s = Some s' ->
  trace step out (ins1 ++ ins2) s = trace step out ins1 s ++ trace step out ins2 s'.
Proof.
  revert s. induction ins1 as [|i ins1 IH]; intros s; simpl.
  - by intros [= ->].
  - destruct (step i s) as [s1|]; simpl; [|done].
    intros Hrun. by rewrite (IH _ Hrun), (assoc_L (++)).
Qed.

Lemma trace_singleton (i : I) (s s' : S) :
  step i s = Some s' -> trace step out [i] s = out i s.
Proof. simpl. intros ->. by rewrite app_nil_r. Qed.

(** Observations renamed. *)
Lemma trace_fmap {O'} (f : O -> O') (ins : list I) (s : S) :
  trace step (fun i s => f <$> out i s) ins s = f <$> trace step out ins s.
Proof.
  revert s. induction ins as [|i ins IH]; intros s; [done|]. simpl.
  destruct (step i s) as [s'|]; [|done]. by rewrite fmap_app, IH.
Qed.
End trace_lemmas.

Section simulation.
Context {O : Type}.
Implicit Types M : Machine O.

(** A simulation carries over to runs. *)
Lemma simulates_run M1 M2 R ins s s' t :
  simulates M1 M2 R -> R s t -> run (m_step M1) ins s = Some s' ->
  exists js t',
    run (m_step M2) js t = Some t' /\ R s' t'
    /\ trace (m_step M2) (m_out M2) js t = trace (m_step M1) (m_out M1) ins s.
Proof.
  intros Hsim. revert s t. induction ins as [|i ins IH]; intros s t HR.
  - intros [= <-]. by exists [], t.
  - simpl. destruct (m_step M1 i s) as [s1|] eqn:Hstep; [|done]. simpl.
    intros Hrun. destruct (Hsim _ _ _ _ HR Hstep) as (js1 & t1 & Hjs1 & HR1 & Htr1).
    destruct (IH _ _ HR1 Hrun) as (js & t' & Hjs & HR' & Htr).
    exists (js1 ++ js), t'. split_and!; [|done|].
    + by rewrite run_app, Hjs1.
    + by rewrite (trace_app _ _ _ _ _ _ Hjs1), Htr1, Htr.
Qed.

(** Every machine simulates itself. *)
Lemma simulates_refl M : simulates M M eq.
Proof.
  intros i s s' t <- Hstep. exists [i], s'. split_and!; [|done|].
  - simpl. by rewrite Hstep.
  - by eapply trace_singleton.
Qed.

(** Simulations compose. *)
Lemma simulates_trans M1 M2 M3 R12 R23 :
  simulates M1 M2 R12 -> simulates M2 M3 R23 ->
  simulates M1 M3 (fun s u => exists t, R12 s t /\ R23 t u).
Proof.
  intros H12 H23 i s s' u (t & HR12 & HR23) Hstep.
  destruct (H12 _ _ _ _ HR12 Hstep) as (js & t' & Hjs & HR12' & Htr).
  destruct (simulates_run _ _ _ _ _ _ _ H23 HR23 Hjs) as (ks & u' & Hks & HR23' & Htr').
  exists ks, u'. split_and!; [done|by exists t'|by rewrite Htr'].
Qed.

(** A simulation that relates the starts proves refinement. *)
Lemma simulates_refines M1 M2 R :
  simulates M1 M2 R -> R (m_init M1) (m_init M2) -> refines M1 M2.
Proof.
  intros Hsim Hinit tr (ins & s' & Hrun & <-).
  destruct (simulates_run _ _ _ _ _ _ _ Hsim Hinit Hrun) as (js & t' & Hjs & _ & Htr).
  by exists js, t'.
Qed.

#[export] Instance refines_preorder : PreOrder (@refines O).
Proof. split; [by intros M tr|]. intros M1 M2 M3 H12 H23 tr Htr. by apply H23, H12. Qed.
End simulation.
