(* ===== verification/Iced.v ===== *)
(** The part of the iced toolkit that main.rs calls, modelled from the
    toolkit's documented behaviour: lengths, alignments and colours,
    the widget tree with the builder calls made on each widget, what a
    tree displays and which messages its buttons emit, commands, and
    the [Application] trait. *)

From stdpp Require Import prelude strings.
From Stdlib Require QArith.
From S2P Require Import Prelude.

Declare Scope iced_scope.
Delimit Scope iced_scope with iced.

(** ** Attribute values *)

Definition Pixels : Type := nat.

Inductive Length : Type :=
| Fill
| FillPortion (n : nat)
| Shrink
| Fixed (px : Pixels).

Inductive Alignment : Type :=
| AlignStart
| AlignCenter
| AlignEnd.

Definition Channel : Type := QArith_base.Q.

Record Color : Type := mkColor {
  color_r : Channel;
  color_g : Channel;
  color_b : Channel;
  color_a : Channel
}.

(** [Color::from([r, g, b])]: an opaque colour. *)
Definition Color_from (rgb : Channel * Channel * Channel) : Color :=
  let '(r, g, b) := rgb in
  {| color_r := r; color_g := g; color_b := b; color_a := QArith_base.Qmake 1 1 |}.

#[export] Instance Length_eq_dec : EqDecision Length.
Proof. solve_decision. Defined.
#[export] Instance Alignment_eq_dec : EqDecision Alignment.
Proof. solve_decision. Defined.
#[export] Instance Channel_eq_dec : EqDecision Channel.
Proof. unfold Channel. solve_decision. Defined.
#[export] Instance Color_eq_dec : EqDecision Color.
Proof. solve_decision. Defined.

(** ** Widgets *)

(** A builder call made on a widget: [.size(40)] is [size 40]. *)
Inductive Attr (Message : Type) : Type :=
| size (px : Pixels)
| width (l : Length)
| height (l : Length)
| max_width (px : Pixels)
| spacing (px : Pixels)
| padding (px : Pixels)
| align_items (a : Alignment)
| style (c : Color)
| center_x
| center_y
| on_press (m : Message).
Arguments size {Message} px.
Arguments width {Message} l.
Arguments height {Message} l.
Arguments max_width {Message} px.
Arguments spacing {Message} px.
Arguments padding {Message} px.
Arguments align_items {Message} a.
Arguments style {Message} c.
Arguments center_x {Message}.
Arguments center_y {Message}.
Arguments on_press {Message} m.

#[export] Instance Attr_eq_dec `{EqDecision Message} : EqDecision (Attr Message).
Proof. solve_decision. Defined.

(** A widget with its content and the builder calls made on it, in
    the order of the calls. *)
#[local] Unset Elimination Schemes.
Inductive Element (Message : Type) : Type :=
| Text (content : string) (attrs : list (Attr Message))
| Button (content : Element Message) (attrs : list (Attr Message))
| Column (children : list (Element Message)) (attrs : list (Attr Message))
| Row (children : list (Element Message)) (attrs : list (Attr Message))
| Container (content : Element Message) (attrs : list (Attr Message)).
#[local] Set Elimination Schemes.
Arguments Text {Message} content attrs.
Arguments Button {Message} content attrs.
Arguments Column {Message} children attrs.
Arguments Row {Message} children attrs.
Arguments Container {Message} content attrs.

Section widgets.
Context {Message : Type}.
Implicit Types (e : Element Message) (a : Attr Message) (m : Message).

(** [text(s)], [column![..]], [row![..]], [container(e)] and
    [widget::button(e)] with no builder call made yet. *)
Definition text (s : string) : Element Message := Text s [].
Definition column (children : list (Element Message)) : Element Message :=
  Column children [].
Definition row (children : list (Element Message)) : Element Message :=
  Row children [].
Definition container (content : Element Message) : Element Message :=
  Container content [].
Definition widget_button (content : Element Message) : Element Message :=
  Button content [].

Definition attrs_of e : list (Attr Message) :=
  match e with
  | Text _ l | Button _ l | Column _ l | Row _ l | Container _ l => l
  end.

(** One more builder call on a widget. *)
Definition call a e : Element Message :=
  match e with
  | Text s l => Text s (l ++ [a])
  | Button c l => Button c (l ++ [a])
  | Column cs l => Column cs (l ++ [a])
  | Row cs l => Row cs (l ++ [a])
  | Container c l => Container c (l ++ [a])
  end.

(** The message a button emits: the one of its last [on_press] call. *)
Definition pressed (l : list (Attr Message)) : option Message :=
  last (omap (fun a => match a with on_press m => Some m | _ => None end) l).

(** The messages a click somewhere in the tree can produce, in
    document order.  A button passes the click to its content first. *)
Fixpoint on_presses e : list Message :=
  match e with
  | Text _ _ => []
  | Button c l => on_presses c ++ option_list (pressed l)
  | Column cs _ | Row cs _ => concat (map on_presses cs)
  | Container c _ => on_presses c
  end.

(** The strings the tree displays, in document order. *)
Fixpoint texts e : list string :=
  match e with
  | Text s _ => [s]
  | Button c _ | Container c _ => texts c
  | Column cs _ | Row cs _ => concat (map texts cs)
  end.
End widgets.

Notation "e |> a" := (call a e)
  (at level 45, left associativity, only parsing) : iced_scope.

(** ** Commands *)

(** What a command asks the run loop to do: run a future and turn its
    output into a message. *)
Inductive Action (Future : Type -> Type) (Message : Type) : Type :=
| Perform {T : Type} (future : Future T) (f : T -> Message).
Arguments Perform {Future Message T} future f.

Definition Command (Future : Type -> Type) (Message : Type) : Type :=
  list (Action Future Message).

Definition Command_none {Future Message} : Command Future Message := [].

Definition Command_perform {Future Message T}
    (future : Future T) (f : T -> Message) : Command Future Message :=
  [Perform future f].

(** ** The [Application] trait *)

Class Application (State Message : Type) (Future : Type -> Type) : Type := {
  app_new : State * Command Future Message;
  app_title : State -> string;
  app_update : State -> Message -> State * Command Future Message;
  app_view : State -> Element Message
}.

(** The field of [iced::Settings] that decides when [run] returns,
    and [Settings::default()]. *)
Record Settings : Type := mkSettings {
  exit_on_close_request : bool
}.

Definition Settings_default : Settings :=
  {| exit_on_close_request := true |}.

(** [iced::Error] and [iced::Result], what [Application::run]
    returns. *)
Inductive iced_Error : Type :=
| ExecutorCreationFailed
| WindowCreationFailed
| GraphicsCreationFailed.

Definition iced_Result : Type := result unit iced_Error.

(** ** Lemmas *)

Section widget_lemmas.
Context {Message : Type}.
Implicit Types (e : Element Message) (a : Attr Message) (m : Message).

Lemma attrs_of_call a e : attrs_of (call a e) = attrs_of e ++ [a].
Proof. by destruct e. Qed.

Lemma texts_call a e : texts (call a e) = texts e.
Proof. by destruct e. Qed.

Lemma pressed_snoc l a :
  pressed (l ++ [a]) = match a with on_press m => Some m | _ => pressed l end.
Proof.
  unfold pressed. rewrite omap_app. destruct a; simpl;
    rewrite ?(right_id_L [] (++)); try done.
  apply last_snoc.
Qed.

(** On a button, [on_press] replaces the message; any other call
    leaves the messages alone. *)
Lemma on_presses_call_button a c l :
  on_presses (Button c l |> a)%iced
  = on_presses c ++ match a with
                    | on_press m => [m]
                    | _ => option_list (pressed l)
                    end.
Proof. simpl. rewrite pressed_snoc. by destruct a. Qed.

Lemma on_presses_call_other a e :
  (forall c l, e <> Button c l) -> on_presses (call a e) = on_presses e.
Proof. destruct e; naive_solver. Qed.

(** Induction on widget trees, with the hypothesis for every child of
    a column or a row. *)
Lemma Element_ind (P : Element Message -> Prop) :
  (forall s l, P (Text s l)) ->
  (forall c l, P c -> P (Button c l)) ->
  (forall cs l, Forall P cs -> P (Column cs l)) ->
  (forall cs l, Forall P cs -> P (Row cs l)) ->
  (forall c l, P c -> P (Container c l)) ->
  forall e, P e.
Proof.
  intros HT HB HC HR HK. fix IH 1. intros [s l|c l|cs l|cs l|c l].
  - apply HT.
  - apply HB, IH.
  - apply HC. induction cs as [|c cs IHcs]; constructor; [apply IH | apply IHcs].
  - apply HR. induction cs as [|c cs IHcs]; constructor; [apply IH | apply IHcs].
  - apply HK, IH.
Qed.
End widget_lemmas.

#[export] Hint Rewrite @attrs_of_call @texts_call @on_presses_call_button : quotes_rw.
