(* ===== verification/Quote.v ===== *)
(** The data the fetcher hands to the application: the struct [Quote]
    and the enum [Error] of main.rs. *)

From stdpp Require Import prelude strings.
From S2P Require Import Prelude.

(** [struct Quote { content: String, author: String }] *)
Record Quote : Type := mkQuote {
  content : string;
  author : string
}.

(** [enum Error { APIError }] *)
Inductive Error : Type :=
| APIError.

#[export] Instance Quote_eq_dec : EqDecision Quote.
Proof. solve_decision. Defined.
#[export] Instance Error_eq_dec : EqDecision Error.
Proof. solve_decision. Defined.
#[export] Instance Quote_inhabited : Inhabited Quote := populate (mkQuote "" "").
#[export] Instance Error_inhabited : Inhabited Error := populate APIError.

(** A quote is its two fields. *)
Lemma Quote_eta (q : Quote) : q = mkQuote (content q) (author q).
Proof. by destruct q. Qed.

Lemma Quote_eq (q1 q2 : Quote) :
  content q1 = content q2 -> author q1 = author q2 -> q1 = q2.
Proof. destruct q1, q2; simpl; congruence. Qed.

(** [Error] has one value: a failure carries no cause. *)
Lemma Error_unique (e1 e2 : Error) : e1 = e2.
Proof. by destruct e1, e2. Qed.
