(* ===== verification/Serde.v ===== *)
(** JSON documents and the decoder that [#[derive(Deserialize)]] gives
    the struct [Entry] of [Quote::search]: an object is read member by
    member in document order, a JSON array is read as the fields in
    declaration order.  The decoder is modelled from the behaviour of
    serde's derive and of serde_json; the text of a document is not
    modelled, a document is its value with the members of an object in
    the order and multiplicity they were written. *)

From stdpp Require Import prelude strings.
From S2P Require Import Prelude.

Local Open Scope string_scope.
Local Open Scope list_scope.
Local Open Scope rust_scope.

(** ** Documents *)

#[local] Unset Elimination Schemes.
Inductive json : Type :=
| JNull
| JBool (b : bool)
| JNumber (literal : string)
| JString (s : string)
| JArray (items : list json)
| JObject (members : list (string * json)).
#[local] Set Elimination Schemes.

(** Why a document is not the value asked for. *)
Inductive serde_Error : Type :=
| InvalidType
| InvalidLength (n : nat)
| MissingField (name : string)
| DuplicateField (name : string)
| TrailingCharacters.

#[export] Instance serde_Error_eq_dec : EqDecision serde_Error.
Proof. solve_decision. Defined.

(** ** [Entry] *)

(** [struct Entry { content: String, author: String }], local to
    [Quote::search]. *)
Record Entry : Type := mkEntry {
  entry_content : string;
  entry_author : string
}.

#[export] Instance Entry_eq_dec : EqDecision Entry.
Proof. solve_decision. Defined.

(** The field a member's key names. *)
Inductive Field : Type :=
| field_content
| field_author
| field_ignore.

#[export] Instance Field_eq_dec : EqDecision Field.
Proof. solve_decision. Defined.

Definition Field_of_key (key : string) : Field :=
  if decide (key = "content") then field_content
  else if decide (key = "author") then field_author
  else field_ignore.

(** [String::deserialize]: only a JSON string will do. *)
Definition deserialize_String (j : json) : result string serde_Error :=
  match j with
  | JString s => Ok s
  | _ => Err InvalidType
  end.

(** The derived visitor on an object: [f0] and [f1] are the fields
    read so far.  A field met twice is an error before its value is
    looked at; a member that names no field is skipped; a field never
    met is an error at the end. *)
Fixpoint visit_map (members : list (string * json)) (f0 f1 : option string)
    : result Entry serde_Error :=
  match members with
  | [] =>
      match f0, f1 with
      | None, _ => Err (MissingField "content")
      | Some _, None => Err (MissingField "author")
      | Some c, Some a => Ok {| entry_content := c; entry_author := a |}
      end
  | (key, value) :: members =>
      match Field_of_key key with
      | field_content =>
          if f0 is Some _ then Err (DuplicateField "content")
          else let? s := deserialize_String value in visit_map members (Some s) f1
      | field_author =>
          if f1 is Some _ then Err (DuplicateField "author")
          else let? s := deserialize_String value in visit_map members f0 (Some s)
      | field_ignore => visit_map members f0 f1
      end
  end.

(** The derived visitor on an array: the two fields in declaration
    order and nothing after them. *)
Definition visit_seq (items : list json) : result Entry serde_Error :=
  match items with
  | [] => Err (InvalidLength 0)
  | j0 :: items =>
      let? c := deserialize_String j0 in
      match items with
      | [] => Err (InvalidLength 1)
      | j1 :: items =>
          let? a := deserialize_String j1 in
          match items with
          | [] => Ok {| entry_content := c; entry_author := a |}
          | _ :: _ => Err TrailingCharacters
          end
      end
  end.

(** [<Entry as Deserialize>::deserialize] on a JSON document. *)
Definition Entry_deserialize (j : json) : result Entry serde_Error :=
  match j with
  | JObject members => visit_map members None None
  | JArray items => visit_seq items
  | _ => Err InvalidType
  end.

(** ** Reading an object as a whole *)

(** The values an object gives for a field, in document order. *)
Definition values_of (f : Field) (members : list (string * json)) : list json :=
  (filter (fun kv => Field_of_key kv.1 = f) members).*2.

(** The object the quote service answers with. *)
Definition Entry_document (e : Entry) : json :=
  JObject [("content", JString (entry_content e)); ("author", JString (entry_author e))].

(** A field read so far, as the value it was read from. *)
Definition seen (f : option string) : list json := option_list (JString <$> f).

(** ** Lemmas *)

Lemma values_of_nil f : values_of f [] = [].
Proof. done. Qed.

Lemma values_of_cons f key value members :
  values_of f ((key, value) :: members)
  = if decide (Field_of_key key = f) then value :: values_of f members
    else values_of f members.
Proof. unfold values_of. rewrite filter_cons. simpl. by case_decide. Qed.

Lemma values_of_app f ms1 ms2 :
  values_of f (ms1 ++ ms2) = values_of f ms1 ++ values_of f ms2.
Proof. unfold values_of. by rewrite filter_app, fmap_app. Qed.

Lemma values_of_Permutation f ms1 ms2 :
  ms1 ≡ₚ ms2 -> values_of f ms1 ≡ₚ values_of f ms2.
Proof. intros Hp. unfold values_of. by rewrite Hp. Qed.

Lemma deserialize_String_Ok j s : deserialize_String j = Ok s <-> j = JString s.
Proof. destruct j; simpl; split; intros; by simplify_eq. Qed.

(** What the visitor has in hand at the end of an object. *)
Lemma visit_map_nil f0 f1 e :
  visit_map [] f0 f1 = Ok e <->
  seen f0 = [JString (entry_content e)] /\ seen f1 = [JString (entry_author e)].
Proof.
  destruct e as [c a], f0 as [c0|], f1 as [a0|]; simpl; split;
    try done; try (by intros [[=] [=]]); try (by intros [[=] _]); try (by intros [_ [=]]).
  - by intros [= -> ->].
  - by intros [[= ->] [= ->]].
Qed.

Lemma visit_map_Ok members f0 f1 e :
  visit_map members f0 f1 = Ok e <->
  seen f0 ++ values_of field_content members = [JString (entry_content e)]
  /\ seen f1 ++ values_of field_author members = [JString (entry_author e)].
Proof.
  revert f0 f1. induction members as [|[key value] members IH]; intros f0 f1.
  { rewrite !values_of_nil, !(right_id_L [] (++)). apply visit_map_nil. }
  simpl. rewrite !values_of_cons.
  destruct (Field_of_key key) eqn:EF; repeat case_decide; try done.
  - destruct f0 as [c0|]; [split; [done|]; by intros [[=] _]|].
    destruct value; simpl; rewrite ?IH; simpl; try done;
      (split; [done | by intros [[=] _]]).
  - destruct f1 as [a0|]; [split; [done|]; by intros [_ [=]]|].
    destruct value; simpl; rewrite ?IH; simpl; try done;
      (split; [done | by intros [_ [=]]]).
Qed.

Lemma visit_map_skip members f0 f1 :
  visit_map (filter (fun kv => Field_of_key kv.1 <> field_ignore) members) f0 f1
  = visit_map members f0 f1.
Proof.
  revert f0 f1. induction members as [|[key value] members IH]; intros f0 f1;
    [done|].
  rewrite filter_cons. simpl. destruct (Field_of_key key) eqn:EF;
    case_decide; try done; simpl; rewrite EF.
  - destruct f0; [done|]. destruct (deserialize_String value); simpl; by rewrite ?IH.
  - destruct f1; [done|]. destruct (deserialize_String value); simpl; by rewrite ?IH.
Qed.

Lemma Permutation_singleton_eq {A} (l : list A) (x : A) : l ≡ₚ [x] -> l = [x].
Proof. intros Hp. symmetry in Hp. by apply Permutation_singleton_l in Hp. Qed.

(** ** Theorems *)

(** C29: an object decodes to an entry exactly when it has one member
    named [content] and one named [author], each a JSON string, and
    the entry holds those two strings unchanged. *)
Theorem Entry_deserialize_object (members : list (string * json)) (e : Entry) :
  Entry_deserialize (JObject members) = Ok e <->
  values_of field_content members = [JString (entry_content e)]
  /\ values_of field_author members = [JString (entry_author e)].
Proof. apply (visit_map_Ok members None None). Qed.

(** The order of an object's members does not matter to a
    successful decode. *)
Theorem Entry_deserialize_Permutation (ms1 ms2 : list (string * json)) (e : Entry) :
  ms1 ≡ₚ ms2 ->
  Entry_deserialize (JObject ms1) = Ok e -> Entry_deserialize (JObject ms2) = Ok e.
Proof.
  intros Hp. unfold Entry_deserialize. rewrite !visit_map_Ok. simpl.
  intros [Hc Ha]. split;
    apply Permutation_singleton_eq;
    [rewrite <- Hc | rewrite <- Ha]; symmetry; by apply values_of_Permutation.
Qed.

Lemma Entry_deserialize_Permutation_witness :
  Entry_deserialize
    (JObject [("author", JString "Oscar Wilde"); ("_id", JNumber "7");
              ("content", JString "Be yourself")])
  = Ok (mkEntry "Be yourself" "Oscar Wilde").
Proof.
  apply (Entry_deserialize_Permutation
           [("_id", JNumber "7"); ("content", JString "Be yourself");
            ("author", JString "Oscar Wilde")]).
  - solve_Permutation.
  - reflexivity.
Defined.

(** Members that name no field of [Entry] are ignored: removing
    them changes nothing, whether the decode succeeds or fails. *)
Theorem Entry_deserialize_ignores_unknown (members : list (string * json)) :
  Entry_deserialize
    (JObject (filter (fun kv => Field_of_key kv.1 <> field_ignore) members))
  = Entry_deserialize (JObject members).
Proof. apply visit_map_skip. Qed.

(** C34: an array decodes to an entry exactly when it is two JSON
    strings, the content first. *)
Theorem Entry_deserialize_array (items : list json) (e : Entry) :
  Entry_deserialize (JArray items) = Ok e <->
  items = [JString (entry_content e); JString (entry_author e)].
Proof.
  destruct e as [c a]. simpl. split.
  - destruct items as [|[] [|[] [|]]]; simpl; intros; by simplify_eq.
  - by intros ->.
Qed.

(** The object the quote service answers with decodes to the
    entry it was built from. *)
Theorem Entry_document_roundtrip (e : Entry) :
  Entry_deserialize (Entry_document e) = Ok e.
Proof. by destruct e. Qed.

(** A document that is neither an object nor an array is never
    an entry. *)
Theorem Entry_deserialize_scalar (j : json) :
  (forall members, j <> JObject members) -> (forall items, j <> JArray items) ->
  Entry_deserialize j = Err InvalidType.
Proof.
  intros Hobj Harr. destruct j as [| | | |items|members]; try done.
  - by destruct (Harr items).
  - by destruct (Hobj members).
Qed.

Lemma Entry_deserialize_scalar_witness :
  Entry_deserialize (JString "Be yourself") = Err InvalidType.
Proof. by apply (Entry_deserialize_scalar (JString "Be yourself")). Defined.
