(* ===== verification/Fetcher.v ===== *)
(** The quote fetcher of main.rs: [Quote::search] with its inner
    [fetch_entry], the fixed URL, and the conversion of a reqwest
    error into [Error::APIError] that logs the cause with [dbg!].

    The HTTP client is modelled from its documented behaviour: a GET
    either fails with an error or gives a response, whatever its
    status code; reading a response as JSON fails when the body cannot
    be read, is not JSON text, or does not decode.  A response body is
    kept as the document its bytes denote. *)

From stdpp Require Import prelude strings.
From S2P Require Import Prelude Quote Serde.

Local Open Scope string_scope.
Local Open Scope list_scope.
Local Open Scope rust_scope.

(** ** The HTTP client *)

(** The kinds of [reqwest::Error]. *)
Inductive reqwest_Error : Type :=
| Builder
| Request
| Redirect
| Status (code : nat)
| Body
| Decode
| Upgrade.

#[export] Instance reqwest_Error_eq_dec : EqDecision reqwest_Error.
Proof. solve_decision. Defined.

(** What the bytes of a body are: nothing usable because the transfer
    broke, bytes that are no JSON text, or the text of a document. *)
Inductive ResponseBody : Type :=
| Unreadable
| NotJson
| Document (j : json).

Record Response : Type := mkResponse {
  status : nat;
  body : ResponseBody
}.

(** What the network answers to a GET of a URL. *)
Definition Network : Type := string -> result Response reqwest_Error.

(** [reqwest::get(url).await] *)
Definition reqwest_get (net : Network) (url : string)
    : result Response reqwest_Error :=
  net url.

(** What [json] makes of the body once the transfer is over: the
    bytes read are decoded. *)
Definition decode_body {T : Type} (deserialize : json -> result T serde_Error)
    (read : ResponseBody) : result T reqwest_Error :=
  match read with
  | Unreadable => Err Body
  | NotJson => Err Decode
  | Document j => map_err (fun _ => Decode) (deserialize j)
  end.

(** [response.json::<T>().await]: the status is not looked at. *)
Definition Response_json {T : Type} (deserialize : json -> result T serde_Error)
    (response : Response) : result T reqwest_Error :=
  decode_body deserialize (body response).

(** ** The fetcher *)

(** A line [dbg!] writes: the expression and its value. *)
Inductive DbgLine : Type :=
| dbg (expr : string) (value : reqwest_Error).

#[export] Instance DbgLine_eq_dec : EqDecision DbgLine.
Proof. solve_decision. Defined.

(** [impl From<reqwest::Error> for Error] *)
#[export] Instance Error_from : FromLogged DbgLine reqwest_Error Error :=
  fun error => (APIError, [dbg "error" error]).

(** The [url] of [fetch_entry]. *)
Definition url : string := "https://api.quotable.io/random".

(** The async block [fetch_entry]. *)
Definition fetch_entry (net : Network) : result Entry reqwest_Error :=
  let? response := reqwest_get net url in
  Response_json Entry_deserialize response.

(** The quote [search] builds from the entry: the two fields, moved. *)
Definition Quote_of_Entry (entry : Entry) : Quote :=
  {| content := entry_content entry; author := entry_author entry |}.

(** [async fn search() -> Result<Quote, Error>], run against a
    network: its result and what it wrote to standard error. *)
Definition Quote_search (net : Network) : Logged DbgLine (result Quote Error) :=
  let?! entry := fetch_entry net in
  quiet (Ok (Quote_of_Entry entry)).

(** A network that answers every GET with the same response. *)
Definition answering (response : Response) : Network := fun _ => Ok response.

(** A network on which every GET fails. *)
Definition failing (error : reqwest_Error) : Network := fun _ => Err error.

(** The response of the quote service for a quote. *)
Definition quote_response (q : Quote) : Response :=
  {| status := 200;
     body := Document (Entry_document (mkEntry (content q) (author q))) |}.

(** ** Lemmas *)

Lemma Response_json_Ok {T} (de : json -> result T serde_Error) response (t : T) :
  Response_json de response = Ok t
  <-> exists j, body response = Document j /\ de j = Ok t.
Proof.
  unfold Response_json, decode_body. destruct (body response) as [| |j]; simpl.
  - split; [done|]. by intros (? & [=] & _).
  - split; [done|]. by intros (? & [=] & _).
  - rewrite map_err_is_ok. split; [eauto|]. by intros (? & [= <-] & ?).
Qed.

Lemma fetch_entry_Ok net entry :
  fetch_entry net = Ok entry
  <-> exists response j,
        net url = Ok response /\ body response = Document j
        /\ Entry_deserialize j = Ok entry.
Proof.
  unfold fetch_entry, reqwest_get. rewrite question_Ok.
  setoid_rewrite Response_json_Ok. split.
  - intros (response & ? & j & ? & ?). by exists response, j.
  - intros (response & j & ? & ? & ?). exists response. eauto.
Qed.

(** ** Theorems *)

(** C3: the fetcher succeeds with a quote exactly when the GET of the
    fixed URL gave a response whose body is a document that decodes to
    an entry, and the quote holds the entry's two strings unchanged. *)
Theorem Quote_search_Ok (net : Network) (q : Quote) :
  (Quote_search net).1 = Ok q
  <-> exists response j,
        net url = Ok response /\ body response = Document j
        /\ Entry_deserialize j = Ok (mkEntry (content q) (author q)).
Proof.
  rewrite <- fetch_entry_Ok. unfold Quote_search.
  destruct (fetch_entry net) as [[c a]|error]; destruct q as [c' a']; simpl;
    split; intros; by simplify_eq.
Qed.

(** C21: the fetcher writes to standard error exactly when it fails:
    nothing on success, and on failure one line that holds the
    reqwest error the result no longer tells. *)
Theorem Quote_search_log (net : Network) :
  (Quote_search net).2 =
  match fetch_entry net with
  | Ok _ => []
  | Err error => [dbg "error" error]
  end
  /\ length (Quote_search net).2 = if is_ok (Quote_search net).1 then 0 else 1.
Proof. unfold Quote_search. by destruct (fetch_entry net). Qed.

(** C24: the status code of the response does not matter: two
    networks whose responses have the same body give the same result
    and the same log, whatever the two status codes.  A 404 or a 500
    whose body happens to decode is a success. *)
Theorem Quote_search_ignores_status (net1 net2 : Network) (r1 r2 : Response) :
  net1 url = Ok r1 -> net2 url = Ok r2 -> body r1 = body r2 ->
  Quote_search net1 = Quote_search net2.
Proof.
  unfold Quote_search, fetch_entry, reqwest_get, Response_json, decode_body.
  intros -> -> E. simpl. by rewrite E.
Qed.

Lemma Quote_search_ignores_status_witness :
  Quote_search (answering (mkResponse 200 NotJson))
  = Quote_search (answering (mkResponse 503 NotJson)).
Proof.
  by apply (Quote_search_ignores_status _ _ (mkResponse 200 NotJson)
              (mkResponse 503 NotJson)).
Defined.

(** A server error whose body is the object of a quote is taken
    for that quote. *)
Theorem Quote_search_accepts_error_status (q : Quote) :
  (Quote_search (answering (mkResponse 500 (body (quote_response q))))).1 = Ok q.
Proof. by destruct q. Qed.

(** The fetcher in terms of [fetch_entry]. *)
Lemma Quote_search_unfold net :
  Quote_search net =
  match fetch_entry net with
  | Ok entry => (Ok (Quote_of_Entry entry), [])
  | Err error => (Err APIError, [dbg "error" error])
  end.
Proof. unfold Quote_search. by destruct (fetch_entry net). Qed.

(** C33: the fetcher asks for the fixed URL and nothing else: two
    networks that answer it alike give the same result and log. *)
Theorem Quote_search_one_request (net1 net2 : Network) :
  net1 url = net2 url -> Quote_search net1 = Quote_search net2.
Proof.
  intros E. rewrite !Quote_search_unfold. unfold fetch_entry, reqwest_get.
  by rewrite E.
Qed.

Lemma Quote_search_one_request_witness :
  Quote_search (fun u => if decide (u = url) then Err Request else Err Redirect)
  = Quote_search (failing Request).
Proof.
  apply (Quote_search_one_request
           (fun u => if decide (u = url) then Err Request else Err Redirect)
           (failing Request)).
  reflexivity.
Defined.

(** Every result is possible: for each quote some network makes
    the fetcher return it, and some network makes it fail. *)
Theorem Quote_search_surjective (r : result Quote Error) :
  exists net : Network, (Quote_search net).1 = r.
Proof.
  destruct r as [[c a]|[]].
  - by exists (answering (quote_response (mkQuote c a))).
  - by exists (failing Request).
Qed.

Lemma fetch_entry_Err net error :
  fetch_entry net = Err error
  <-> net url = Err error
      \/ exists response, net url = Ok response /\
            match body response with
            | Unreadable => error = Body
            | NotJson => error = Decode
            | Document j => is_ok (Entry_deserialize j) = false /\ error = Decode
            end.
Proof.
  unfold fetch_entry, reqwest_get, Response_json, decode_body.
  destruct (net url) as [response|error']; simpl; cbv [from From_refl].
  - setoid_rewrite (ex_ok_eq response).
    rewrite (False_or_l (Ok response = Err error)) by done.
    destruct (body response) as [| |j]; simpl;
      [| |destruct (Entry_deserialize j); simpl]; result_iff.
  - split; [intros [= ->]; by left|]. by intros [[= ->]|(? & [=] & _)].
Qed.

(** C28: why the fetcher fails: the GET failed, with the error logged
    as it is, or the body could not be read ([Body]), or it is not the
    JSON text of an entry ([Decode]). *)
Theorem Quote_search_Err (net : Network) (line : DbgLine) :
  Quote_search net = (Err APIError, [line])
  <-> exists error, line = dbg "error" error /\
        (net url = Err error
         \/ exists response, net url = Ok response /\
               match body response with
               | Unreadable => error = Body
               | NotJson => error = Decode
               | Document j =>
                   is_ok (Entry_deserialize j) = false /\ error = Decode
               end).
Proof.
  setoid_rewrite <- fetch_entry_Err. rewrite Quote_search_unfold.
  destruct (fetch_entry net) as [entry|error]; result_iff.
Qed.
