(* ===== verification/Trees.v ===== *)
(** Interaction trees for the asynchronous code of main.rs: the
    notation for [.await], the [?] operator of an async block, and a
    runner that performs the events of a tree against a world for a
    bounded number of steps or one node at a time, with its
    equations and its agreement with the interpreter of the ITree
    library. *)

From stdpp Require Import prelude.
From ITree Require Import ITree ITreeFacts Events.State Events.StateFacts.
From S2P Require Import Prelude.

Declare Scope async_scope.
Delimit Scope async_scope with async.

(** [let x = t.await; k] *)
Notation "'await' x := t 'in' k" := (ITree.bind t (fun x => k))
  (at level 10, x name, t at level 100, k at level 200, only parsing)
  : async_scope.

Local Open Scope async_scope.

(** The [?] operator in an async block: on [Err e] the block returns
    the error converted by [convert], after the effects of the
    conversion. *)
Definition question_async {E : Type -> Type} {T U Er F : Type}
    (convert : Er -> itree E F) (r : result T Er)
    (k : T -> itree E (result U F)) : itree E (result U F) :=
  match r with
  | Ok t => k t
  | Err e => await e' := convert e in Ret (Err e')
  end.

(** ** Running a tree *)

Section exec.
Context {E : Type -> Type} {W : Type}.

(** What one event does to the world and what it answers. *)
Context (perform : forall X : Type, E X -> W -> W * X).

(** A tree run for at most [fuel] steps, one step for every node of
    the tree it passes; [None] when the fuel runs out before the tree
    returns. *)
Fixpoint exec {A : Type} (fuel : nat) (t : itree E A) (w : W) : option (W * A) :=
  match fuel with
  | 0 => None
  | S fuel =>
      match observe t with
      | RetF a => Some (w, a)
      | TauF t' => exec fuel t' w
      | VisF e k => let '(w', x) := perform _ e w in exec fuel (k x) w'
      end
  end.

(** The same meaning of events, as a handler for the library's
    interpreter. *)
Definition handler : E ~> Monads.stateT W (itree void1) :=
  fun _ e w => Ret (perform _ e w).

(** One node of a tree: the tree that is left of it, or what it
    returned. *)
Definition advance {A : Type} (t : itree E A) (w : W) : W * (itree E A + A) :=
  match observe t with
  | RetF a => (w, inr a)
  | TauF t' => (w, inl t')
  | VisF e k => let '(w', x) := perform _ e w in (w', inl (k x))
  end.

(** ** The equations of [exec] *)

Lemma exec_0 {A} (t : itree E A) w : exec 0 t w = None.
Proof. done. Qed.

Lemma exec_S {A} (fuel : nat) (t : itree E A) w :
  exec (S fuel) t w
  = match observe t with
    | RetF a => Some (w, a)
    | TauF t' => exec fuel t' w
    | VisF e k => let '(w', x) := perform _ e w in exec fuel (k x) w'
    end.
Proof. done. Qed.

Lemma exec_Ret {A} (fuel : nat) (a : A) w : exec (S fuel) (Ret a) w = Some (w, a).
Proof. done. Qed.

Lemma exec_Tau {A} (fuel : nat) (t : itree E A) w :
  exec (S fuel) (Tau t) w = exec fuel t w.
Proof. done. Qed.

Lemma exec_Vis {A X} (fuel : nat) (e : E X) (k : X -> itree E A) w :
  exec (S fuel) (Vis e k) w = exec fuel (k (perform _ e w).2) (perform _ e w).1.
Proof. simpl. by destruct (perform _ e w). Qed.

(** A run is its first node and then the run of the tree that is
    left. *)
Lemma exec_advance {A} (fuel : nat) (t : itree E A) w :
  exec (S fuel) t w
  = match advance t w with
    | (w', inr a) => Some (w', a)
    | (w', inl t') => exec fuel t' w'
    end.
Proof.
  rewrite exec_S. unfold advance. destruct (observe t) as [a|t'|X e k]; [done..|].
  by destruct (perform _ e w).
Qed.

(** A bind runs its first tree and goes on with the second; the
    return of the first tree is no step of the bind. *)
Lemma exec_bind {A B} (fuel : nat) (t : itree E A) (k : A -> itree E B) w :
  exec (S fuel) (ITree.bind t k) w
  = match observe t with
    | RetF a => exec (S fuel) (k a) w
    | TauF t' => exec fuel (ITree.bind t' k) w
    | VisF e ke =>
        let '(w', x) := perform _ e w in exec fuel (ITree.bind (ke x) k) w'
    end.
Proof. cbn [exec]. rewrite observe_bind. by destruct (observe t). Qed.

(** An awaited event costs one step. *)
Lemma exec_await {A X} (fuel : nat) (e : E X) (k : X -> itree E A) w :
  exec (S (S fuel)) (await x := ITree.trigger e in k x) w
  = exec (S fuel) (k (perform _ e w).2) (perform _ e w).1.
Proof.
  rewrite exec_bind.
  change (observe (ITree.trigger e))
    with (@VisF E X (itree E X) X e (fun x : X => Ret x)).
  cbv beta iota. destruct (perform X e w) as [w' x]. by rewrite exec_bind.
Qed.

(** A loop runs its body and then, after one silent step, itself. *)
Lemma exec_iter {I A} (fuel : nat) (body : I -> itree E (I + A)) (i : I) w :
  exec fuel (ITree.iter body i) w
  = exec fuel (await next := body i in
               match next with
               | inl i' => Tau (ITree.iter body i')
               | inr a => Ret a
               end) w.
Proof. by destruct fuel. Qed.

(** More fuel does not change the result of a run. *)
Lemma exec_more {A} (fuel fuel' : nat) (t : itree E A) w r :
  fuel <= fuel' -> exec fuel t w = Some r -> exec fuel' t w = Some r.
Proof.
  revert fuel' t w. induction fuel as [|fuel IH]; intros [|fuel'] t w Hle;
    simpl; try done; try lia.
  destruct (observe t) as [a|t'|X e k].
  - done.
  - apply IH; lia.
  - destruct (perform _ e w). apply IH; lia.
Qed.

(** Two runs of a tree from the same world that return agree, whatever
    their fuel. *)
Lemma exec_agree {A} (n m : nat) (t : itree E A) w r r' :
  exec n t w = Some r -> exec m t w = Some r' -> r = r'.
Proof.
  intros Hn Hm. apply (exec_more _ (n `max` m)) in Hn, Hm; [|lia..]. congruence.
Qed.

(** When the first tree of a bind returns within [n] steps and the
    second within [m], the bind returns within [n + m]. *)
Lemma exec_bind_Some {A B} (n m : nat) (t : itree E A) (k : A -> itree E B)
    w w' a r :
  exec n t w = Some (w', a) -> exec m (k a) w' = Some r ->
  exec (n + m) (ITree.bind t k) w = Some r.
Proof.
  revert t w. induction n as [|n IH]; intros t w Ht Hk; [done|].
  change (S n + m) with (S (n + m)). rewrite exec_bind. cbn [exec] in Ht.
  destruct (observe t) as [a'|t'|X e ke].
  - injection Ht as <- <-. apply (exec_more m); [lia|done].
  - by apply IH.
  - destruct (perform _ e w) as [w1 x]. by apply IH.
Qed.

(** A run with fuel is a run of the library's interpreter. *)
Lemma exec_interp {A} (fuel : nat) (t : itree E A) w r :
  exec fuel t w = Some r -> interp_state handler t w ≈ Ret r.
Proof.
  revert t w. induction fuel as [|fuel IH]; intros t w; [done|]. simpl.
  rewrite unfold_interp_state. destruct (observe t) as [a|t'|X e k]; cbn.
  - by intros [= <-].
  - intros Ht'. rewrite tau_eutt. by apply IH.
  - unfold handler at 1. rewrite bind_ret_l, tau_eutt.
    destruct (perform _ e w). apply IH.
Qed.
End exec.

Arguments exec : simpl never.

(** Runs [exec] on a tree built from [Ret], [Tau], [ITree.trigger] and
    [ITree.bind] as far as the tree is known. *)
Ltac exec_steps :=
  repeat (ITree.fold_subst;
          first [ rewrite exec_bind | rewrite exec_Ret | rewrite exec_Tau
                | rewrite exec_0 | progress cbn ]).
