(* ===== verification/Async.v ===== *)
(** The quote fetcher of main.rs with its effects explicit: the
    [async fn] [Quote::search] as an interaction tree whose events are
    the HTTP GET it awaits, the reading of the response body it
    awaits, and the line [dbg!] writes.  The tree is
    run against a network, step by step with fuel or through the
    library's interpreter, and gives what the function [Quote_search]
    of [Fetcher] gives. *)

From stdpp Require Import prelude strings.
From ITree Require Import ITree ITreeFacts Events.State Events.StateFacts
  Props.Finite.
From S2P Require Import Prelude Quote Serde Fetcher Trees.

Local Open Scope string_scope.
Local Open Scope list_scope.
Local Open Scope async_scope.

(** ** Events *)

(** What [Quote::search] asks of the world outside the process. *)
Variant fetchE : Type -> Type :=
| Get (url : string) : fetchE (result Response reqwest_Error)
| ReadBody (response : Response) : fetchE ResponseBody
| Dbg (line : DbgLine) : fetchE unit.

(** What an observer of the process sees of an event. *)
Inductive Effect : Type :=
| Requested (url : string)
| Wrote (line : DbgLine).

#[export] Instance Effect_eq_dec : EqDecision Effect.
Proof. solve_decision. Defined.

(** ** The fetcher *)

(** [impl From<reqwest::Error> for Error]: [dbg!(error)], then
    [Error::APIError]. *)
Definition from_async (error : reqwest_Error) : itree fetchE Error :=
  await _ := ITree.trigger (Dbg (dbg "error" error)) in
  Ret APIError.

(** [response.json::<T>()]: the body is awaited and what was read is
    decoded. *)
Definition Response_json_async {T : Type}
    (deserialize : json -> result T serde_Error) (response : Response)
    : itree fetchE (result T reqwest_Error) :=
  await read := ITree.trigger (ReadBody response) in
  Ret (decode_body deserialize read).

(** The async block [fetch_entry]: the GET is awaited, [?] returns its
    error unconverted, and [json] is awaited on the response. *)
Definition fetch_entry_async : itree fetchE (result Entry reqwest_Error) :=
  await got := ITree.trigger (Get url) in
  question_async (fun e => Ret e) got (fun response =>
  Response_json_async Entry_deserialize response).

(** [async fn search() -> Result<Quote, Error>] *)
Definition search_async : itree fetchE (result Quote Error) :=
  await fetched := fetch_entry_async in
  question_async from_async fetched (fun entry =>
  Ret (Ok (Quote_of_Entry entry))).

(** ** Running a tree *)

(** The world outside the process: the network that answers its requests
    and what it has done so far, oldest first. *)
Definition Outside : Type := Network * list Effect.

(** One event against the world. *)
Definition perform (X : Type) (e : fetchE X) (w : Outside) : Outside * X :=
  match e in fetchE X return Outside * X with
  | Get u => ((w.1, w.2 ++ [Requested u]), reqwest_get w.1 u)
  | ReadBody response => (w, body response)
  | Dbg line => ((w.1, w.2 ++ [Wrote line]), tt)
  end.

(** The lines among the effects. *)
Definition lines (effects : list Effect) : list DbgLine :=
  omap (fun e => match e with Wrote line => Some line | Requested _ => None end)
       effects.

(** The URLs requested among the effects. *)
Definition requests (effects : list Effect) : list string :=
  omap (fun e => match e with Requested u => Some u | Wrote _ => None end)
       effects.

(** What [search_async] does in a world whose network is [net]: one
    request, then the lines of [Quote_search]. *)
Definition search_effects (net : Network) : list Effect :=
  Requested url :: (Wrote <$> (Quote_search net).2).

(** The order of the effects of fetches that run one after the other:
    every request goes to the fixed URL, and a line is written only
    right after a request, one line at the most.  [may_write] says
    whether the effect before was a request. *)
Fixpoint in_order (may_write : bool) (effects : list Effect) : bool :=
  match effects with
  | [] => true
  | Requested u :: rest => bool_decide (u = url) && in_order true rest
  | Wrote _ :: rest => may_write && in_order false rest
  end.

(** ** Lemmas *)

Lemma lines_app l1 l2 : lines (l1 ++ l2) = lines l1 ++ lines l2.
Proof. apply omap_app. Qed.

Lemma requests_app l1 l2 : requests (l1 ++ l2) = requests l1 ++ requests l2.
Proof. apply omap_app. Qed.

Lemma lines_Wrote ls : lines (Wrote <$> ls) = ls.
Proof. unfold lines. induction ls as [|l ls IH]; simpl; [done|by f_equal]. Qed.

Lemma requests_Wrote ls : requests (Wrote <$> ls) = [].
Proof. by induction ls. Qed.

Lemma fetch_entry_cases (net : Network) :
  fetch_entry net
  = match net url with
    | Ok response => decode_body Entry_deserialize (body response)
    | Err error => Err error
    end.
Proof. unfold fetch_entry, reqwest_get. by destruct (net url). Qed.

(** The shape of the effects of a fetch. *)
Lemma search_effects_shape (net : Network) :
  requests (search_effects net) = [url]
  /\ head (search_effects net) = Some (Requested url)
  /\ lines (search_effects net) = (Quote_search net).2
  /\ length (lines (search_effects net))
     = (if is_ok (Quote_search net).1 then 0 else 1).
Proof.
  unfold search_effects. cbn. rewrite requests_Wrote, lines_Wrote.
  split_and!; try done.
  rewrite Quote_search_unfold. by destruct (fetch_entry net).
Qed.

(** Effects in order stay in order when a request to the fixed URL
    follows them. *)
Lemma in_order_app (may_write : bool) (l rest : list Effect) :
  in_order may_write (l ++ Requested url :: rest)
  = in_order may_write l && in_order true rest.
Proof.
  revert may_write.
  induction l as [|[u|line] l IH]; intros may_write; cbn [app in_order].
  - by rewrite bool_decide_eq_true_2.
  - by rewrite IH, andb_assoc.
  - by rewrite IH, andb_assoc.
Qed.

Lemma in_order_search_effects (l : list Effect) (net : Network) :
  in_order false (l ++ search_effects net) = in_order false l.
Proof.
  unfold search_effects. rewrite in_order_app, Quote_search_unfold.
  destruct (fetch_entry net); simpl; by rewrite ?andb_true_r.
Qed.

(** Effects in order are in order from their start on. *)
Lemma in_order_prefix (may_write : bool) (l1 l2 : list Effect) :
  l1 `prefix_of` l2 -> in_order may_write l2 = true -> in_order may_write l1 = true.
Proof.
  intros [k ->]. revert may_write.
  induction l1 as [|[u|line] l1 IH]; intros may_write; cbn [app in_order];
    [done|rewrite !andb_true_iff; naive_solver..].
Qed.

Lemma lines_prefix (l1 l2 : list Effect) :
  l1 `prefix_of` l2 -> lines l1 `prefix_of` lines l2.
Proof. intros [k ->]. rewrite lines_app. by apply prefix_app_r. Qed.

(** An event leaves the network as it is and adds to the effects. *)
Lemma perform_extends {X} (e : fetchE X) (w : Outside) :
  (perform X e w).1.1 = w.1 /\ w.2 `prefix_of` (perform X e w).1.2.
Proof. destruct e; simpl; split; try done; by apply prefix_app_r. Qed.

(** So does a run. *)
Lemma exec_perform_extends {A} (fuel : nat) (t : itree fetchE A) (w w' : Outside)
    (a : A) :
  exec perform fuel t w = Some (w', a) -> w'.1 = w.1 /\ w.2 `prefix_of` w'.2.
Proof.
  revert t w. induction fuel as [|fuel IH]; intros t w; [done|].
  rewrite exec_S. destruct (observe t) as [a'|t'|X e k].
  - by intros [= <- _].
  - apply IH.
  - destruct (perform_extends e w) as [Hnet Heff].
    destruct (perform X e w) as [w1 x]. intros [-> Hw']%IH.
    split; [done|]. by etrans.
Qed.

(** Four steps are enough for [search_async]. *)
Lemma search_async_exec (net : Network) (done : list Effect) :
  exec perform 4 search_async (net, done)
  = Some ((net, done ++ search_effects net), (Quote_search net).1).
Proof.
  unfold search_effects. rewrite Quote_search_unfold, fetch_entry_cases.
  unfold search_async, fetch_entry_async, Response_json_async.
  exec_steps. unfold reqwest_get.
  destruct (net url) as [response|error]; exec_steps;
    [destruct (decode_body Entry_deserialize (body response)); exec_steps|];
    by rewrite <- ?(assoc_L (++)).
Qed.

(** ** Theorems *)

(** C18: run against any network with four steps of fuel or more, the
    tree of [Quote::search] returns: it gives the result of
    [Quote_search], after one request to the fixed URL and then the
    lines of [Quote_search], and the network is the same after the
    run. *)
Theorem search_async_terminates (fuel : nat) (net : Network) (done : list Effect) :
  4 <= fuel ->
  exec perform fuel search_async (net, done)
  = Some ((net, done ++ search_effects net), (Quote_search net).1).
Proof. intros Hfuel. by apply (exec_more perform 4), search_async_exec. Qed.

Lemma search_async_terminates_witness :
  exec perform 4 search_async (failing Request, [])
  = Some ((failing Request, [Requested url; Wrote (dbg "error" Request)]),
          Err APIError).
Proof. by apply (search_async_terminates 4 (failing Request) []). Defined.

(** C32: the bound of four steps is the least one: two steps never
    suffice, and three do not suffice when the response arrives and
    its body does not decode, because that path awaits the GET and
    the body and then writes the [dbg!] line. *)
Theorem search_async_fuel_tight (net : Network) (done : list Effect) :
  exec perform 2 search_async (net, done) = None
  /\ (is_ok (net url) = true -> is_ok (fetch_entry net) = false ->
      exec perform 3 search_async (net, done) = None).
Proof.
  unfold search_async, fetch_entry_async, Response_json_async.
  rewrite fetch_entry_cases. unfold reqwest_get.
  split; [|intros Hgot]; exec_steps; unfold reqwest_get;
    destruct (net url) as [response|error]; exec_steps; try done.
  by destruct (decode_body Entry_deserialize (body response)); exec_steps.
Qed.

Lemma search_async_fuel_tight_witness :
  exec perform 2 search_async (answering (mkResponse 200 NotJson), []) = None
  /\ exec perform 3 search_async (answering (mkResponse 200 NotJson), []) = None.
Proof.
  destruct (search_async_fuel_tight (answering (mkResponse 200 NotJson)) [])
    as [Htwo Hthree].
  split; [exact Htwo|by apply Hthree].
Defined.

(** Every branch of the tree of [Quote::search] is finite: the
    fetcher has no loop and no retry, whatever the world answers. *)
Theorem search_async_all_finite : all_finite search_async.
Proof.
  unfold search_async, fetch_entry_async, Response_json_async,
    question_async, from_async.
  repeat first
    [ apply all_finite_Ret
    | apply all_finite_trigger
    | apply all_finite_bind; [|intros ? _]
    | match goal with |- all_finite (match ?r with _ => _ end) => destruct r end ].
Qed.

(** C14: interpreted by the library's interpreter with the world as
    state, the tree of [Quote::search] is the computation that returns
    the result of the function [Quote_search] in the world extended
    by one request and the lines of [Quote_search]. *)
Theorem search_async_interp (net : Network) (done : list Effect) :
  interp_state (handler perform) search_async (net, done)
  ≈ Ret ((net, done ++ search_effects net), (Quote_search net).1).
Proof. apply (exec_interp perform 4), search_async_exec. Qed.

(** What the process does for one fetch, seen from outside.
    Whenever the tree of [Quote::search] returns, it has made exactly
    one request, to the fixed URL, before anything was written; it
    has written the lines of [Quote_search], at most one and one
    exactly when the fetch failed; and the network is untouched. *)
Theorem search_async_effects (fuel : nat) (net : Network) (w : Outside)
    (r : result Quote Error) :
  exec perform fuel search_async (net, []) = Some (w, r) ->
  w.1 = net
  /\ requests w.2 = [url]
  /\ head w.2 = Some (Requested url)
  /\ lines w.2 = (Quote_search net).2
  /\ length (lines w.2) = (if is_ok r then 0 else 1).
Proof.
  intros Hrun.
  pose proof (exec_agree _ _ _ _ _ _ _ Hrun (search_async_exec net [])) as [= -> ->].
  destruct (search_effects_shape net) as (? & ? & ? & ?). by split_and!.
Qed.

Lemma search_async_effects_witness :
  (failing Request, [Requested url; Wrote (dbg "error" Request)]).1
  = failing Request
  /\ requests [Requested url; Wrote (dbg "error" Request)] = [url]
  /\ head [Requested url; Wrote (dbg "error" Request)] = Some (Requested url)
  /\ lines [Requested url; Wrote (dbg "error" Request)]
     = (Quote_search (failing Request)).2
  /\ length (lines [Requested url; Wrote (dbg "error" Request)]) = 1.
Proof.
  by apply (search_async_effects 4 (failing Request)
              (failing Request, [Requested url; Wrote (dbg "error" Request)])
              (Err APIError)).
Defined.
