(* ===== verification/App.v ===== *)
(** The application state machine of main.rs: the enums [Quotes] and
    [Message], the methods [new], [title], [update] and [view] of
    [impl Application for Quotes], and the helpers [Quote::view] and
    [button]. *)

From stdpp Require Import prelude strings.
From Stdlib Require QArith.
From S2P Require Import Prelude Iced Quote.

Local Open Scope string_scope.
Local Open Scope iced_scope.

(** ** Data *)

(** [enum Quotes { Loading, Loaded { quote: Quote }, Errored }] *)
Inductive Quotes : Type :=
| Loading
| Loaded (quote : Quote)
| Errored.

(** [enum Message { QuoteFound(Result<Quote, Error>), Search }] *)
Inductive Message : Type :=
| QuoteFound (r : result Quote Error)
| Search.

(** The futures the application hands to the run loop, indexed by
    their output: [Quote::search()] is the only one. *)
Inductive Future : Type -> Type :=
| SearchFuture : Future (result Quote Error).

#[export] Instance Quotes_eq_dec : EqDecision Quotes.
Proof. solve_decision. Defined.
#[export] Instance Message_eq_dec : EqDecision Message.
Proof. solve_decision. Defined.
#[export] Instance Quotes_inhabited : Inhabited Quotes := populate Loading.

(** ** Methods *)

(** [type Flags = ()] *)
Definition Flags : Type := unit.

(** [fn new(_flags: ()) -> (Quotes, Command<Message>)] *)
Definition new (_flags : Flags) : Quotes * Command Future Message :=
  (Loading, Command_perform SearchFuture QuoteFound).

(** The [subtitle] bound in [title]. *)
Definition subtitle (self : Quotes) : string :=
  match self with
  | Loading => "Loading"
  | Loaded quote => author quote
  | Errored => "Whoops!"
  end.

(** The text [format!] appends to the subtitle, in UTF-8. *)
Definition title_suffix : string := " - Pokédex".

(** [fn title(&self) -> String] *)
Definition title (self : Quotes) : string :=
  subtitle self ++ title_suffix.

(** [fn update(&mut self, message: Message) -> Command<Message>]: the
    state after the call and the command returned. *)
Definition update (self : Quotes) (message : Message)
    : Quotes * Command Future Message :=
  match message with
  | QuoteFound (Ok quote) => (Loaded quote, Command_none)
  | QuoteFound (Err _error) => (Errored, Command_none)
  | Search =>
      match self with
      | Loading => (self, Command_none)
      | _ => (Loading, Command_perform SearchFuture QuoteFound)
      end
  end.

(** [fn button(text: &str) -> widget::Button<'_, Message>] *)
Definition button (text_ : string) : Element Message :=
  widget_button (text text_) |> padding 10.

(** The grey of the author line: [Color::from([0.5, 0.5, 0.5])]. *)
Definition author_color : Color :=
  let half := QArith_base.Qmake 1 2 in Color_from (half, half, half).

(** [fn view(&self) -> Element<Message>] of [impl Quote]. *)
Definition Quote_view (self : Quote) : Element Message :=
  row [
    column [
      row [
        text (content self) |> size 30 |> width Fill;
        text ("-" ++ author self) |> size 20 |> style author_color
      ]
      |> align_items AlignCenter
      |> spacing 20
    ]
    |> spacing 20
  ]
  |> spacing 20
  |> align_items AlignCenter.

(** The [content] bound in [view]. *)
Definition view_content (self : Quotes) : Element Message :=
  match self with
  | Loading =>
      column [ text "Searching for Quotes..." |> size 40 ]
      |> width Shrink
  | Loaded quote =>
      column [
        Quote_view quote;
        button "Keep searching!" |> on_press Search
      ]
      |> max_width 500
      |> spacing 20
      |> align_items AlignEnd
  | Errored =>
      column [
        text "Whoops! Something went wrong..." |> size 40;
        button "Try again" |> on_press Search
      ]
      |> spacing 20
      |> align_items AlignEnd
  end.

(** [fn view(&self) -> Element<Message>] of [impl Application]. *)
Definition view (self : Quotes) : Element Message :=
  container (view_content self)
  |> width Fill
  |> height Fill
  |> center_x
  |> center_y.

(** [impl Application for Quotes] *)
#[export] Instance Quotes_Application : Application Quotes Message Future := {|
  app_new := new ();
  app_title := title;
  app_update := update;
  app_view := view
|}.

(** ** What the state machine keeps track of *)

(** Whether the state is the one that waits for a fetch. *)
Definition is_loading (self : Quotes) : bool :=
  match self with Loading => true | _ => false end.

Definition is_search (message : Message) : bool :=
  match message with Search => true | QuoteFound _ => false end.

(** The number of fetches the state waits for. *)
Definition in_flight (self : Quotes) : nat :=
  if is_loading self then 1 else 0.

(** ** [update] *)

(** C2: the state after [update] is decided by the message alone: the
    fetched quote, unchanged, after a successful fetch, [Errored] after
    a failed one, and [Loading] after [Search], whatever the state
    was. *)
Theorem update_next_state (self : Quotes) (message : Message) :
  (update self message).1 =
  match message with
  | QuoteFound (Ok quote) => Loaded quote
  | QuoteFound (Err _) => Errored
  | Search => Loading
  end.
Proof. by destruct message as [[q|e]|], self. Qed.

(** C1: [update] returns the command that runs [Quote::search()] and
    wraps its output in [QuoteFound] exactly when the message is
    [Search] and the state is not [Loading]; in every other case it
    returns the empty command. *)
Theorem update_command (self : Quotes) (message : Message) :
  (update self message).2 =
  if is_search message && negb (is_loading self)
  then Command_perform SearchFuture QuoteFound
  else Command_none.
Proof. by destruct message as [[q|e]|], self. Qed.

(** [Search] starts as many fetches as the state gains. *)
Lemma update_Search_balance (self : Quotes) :
  in_flight (update self Search).1
  = in_flight self + length (update self Search).2.
Proof. by destruct self. Qed.

(** A fetch result leaves nothing in flight and starts nothing. *)
Lemma update_QuoteFound_settles (self : Quotes) (r : result Quote Error) :
  in_flight (update self (QuoteFound r)).1 = 0
  /\ (update self (QuoteFound r)).2 = Command_none.
Proof. by destruct r. Qed.

(** [update] never has more than one fetch started by one message,
    and after any message the state waits for a fetch exactly when
    the message was [Search]. *)
Theorem update_in_flight (self : Quotes) (message : Message) :
  length (update self message).2 <= 1
  /\ (is_loading (update self message).1 = is_search message).
Proof. by destruct message as [[q|e]|], self; simpl; auto. Qed.

(** ** [title] *)

Lemma title_suffix_length : String.length title_suffix = 11.
Proof. reflexivity. Qed.

(** Every title ends with the fixed text [" - Pokédex"]. *)
Theorem title_ends_with_suffix (self : Quotes) :
  ends_with (title self) title_suffix = true.
Proof. apply ends_with_app. Qed.

(** The title is the subtitle followed by 11 bytes: 3 for [" - "]
    and 8 for ["Pokédex"], whose [é] takes two bytes in UTF-8. *)
Theorem title_length (self : Quotes) :
  String.length (title self) = String.length (subtitle self) + 11.
Proof. unfold title. by rewrite string_app_length, title_suffix_length. Qed.

(** C35: when two states have the same title.  The title names the
    author and nothing else of a quote, with nothing around the name:
    two loaded states have the same title exactly when their quotes
    have the same author, and a quote whose author is the text
    ["Loading"] or ["Whoops!"] gives the title of the loading screen
    or of the error screen; those two titles differ. *)
Theorem title_eq_iff (s1 s2 : Quotes) :
  title s1 = title s2 <->
  match s1, s2 with
  | Loading, Loading | Errored, Errored => True
  | Loaded q1, Loaded q2 => author q1 = author q2
  | Loaded q, Loading | Loading, Loaded q => author q = "Loading"
  | Loaded q, Errored | Errored, Loaded q => author q = "Whoops!"
  | Loading, Errored | Errored, Loading => False
  end.
Proof.
  unfold title. split.
  - intros E%string_app_inv_tail. by destruct s1, s2; simplify_eq/=.
  - destruct s1, s2; simpl; intros E; by rewrite ?E.
Qed.

(** ** [view] *)

Lemma Quote_view_texts (self : Quote) :
  texts (Quote_view self) = [content self; "-" ++ author self].
Proof. reflexivity. Qed.

Lemma Quote_view_on_presses (self : Quote) : on_presses (Quote_view self) = [].
Proof. reflexivity. Qed.

Lemma button_on_presses (label : string) (message : Message) :
  on_presses (button label |> on_press message) = [message].
Proof. reflexivity. Qed.

Lemma button_disabled (label : string) : on_presses (button label) = [].
Proof. reflexivity. Qed.

(** C4: the screen offers no action while loading, and exactly one, a
    button that emits [Search], once a quote or an error is shown. *)
Theorem view_on_presses (self : Quotes) :
  on_presses (view self) = if is_loading self then [] else [Search].
Proof. by destruct self. Qed.

(** C30: the screen shows the searching message while loading; the
    quote's text, its author after a dash and the label of the button
    once loaded; and the failure message with the retry label after an
    error. *)
Theorem view_texts (self : Quotes) :
  texts (view self) =
  match self with
  | Loading => ["Searching for Quotes..."]
  | Loaded quote => [content quote; "-" ++ author quote; "Keep searching!"]
  | Errored => ["Whoops! Something went wrong..."; "Try again"]
  end.
Proof. by destruct self. Qed.

(** C31: the screen determines the state: two states with the same
    widget tree are equal. *)
Theorem view_injective (s1 s2 : Quotes) : view s1 = view s2 -> s1 = s2.
Proof.
  destruct s1 as [|q1|], s2 as [|q2|]; intros E; simplify_eq/=; try done.
  f_equal. by apply Quote_eq.
Qed.

Lemma view_injective_witness :
  view Errored = view Errored /\ Errored = Errored.
Proof. split; [reflexivity|]. by apply (view_injective Errored Errored). Defined.
