(* ===== verification/Spec.v ===== *)
(** The application state machine as the specification states it: the
    three states, the two events and the transition table with its side
    effect, the proof that [update] of main.rs implements the table,
    and the table together with its fetches in flight as a machine
    ([system]).  The specification's names differ from the code's
    ([FetchCompleted] for [QuoteFound], [SearchRequested] for
    [Search]); [abs_state] and [abs_event] translate. *)

From stdpp Require Import prelude strings.
From S2P Require Import Prelude Simulation Iced Quote App.

(** ** The table *)

Inductive ApplicationState : Type :=
| SLoading
| SLoaded (quote : Quote)
| SErrored.

Definition FetchOutcome : Type := result Quote Error.

Inductive Event : Type :=
| FetchCompleted (outcome : FetchOutcome)
| SearchRequested.

(** The side effect of a transition: the number of fetches it
    schedules. *)
Definition Effect : Type := nat.
Definition no_effect : Effect := 0.
Definition schedule_fetch : Effect := 1.

#[export] Instance ApplicationState_eq_dec : EqDecision ApplicationState.
Proof. solve_decision. Defined.
#[export] Instance Event_eq_dec : EqDecision Event.
Proof. solve_decision. Defined.

(** One row of the table per constructor. *)
Inductive spec_step : ApplicationState -> Event -> ApplicationState -> Effect -> Prop :=
| step_completed_ok s q :
    spec_step s (FetchCompleted (Ok q)) (SLoaded q) no_effect
| step_completed_err s e :
    spec_step s (FetchCompleted (Err e)) SErrored no_effect
| step_search_ignored :
    spec_step SLoading SearchRequested SLoading no_effect
| step_search s :
    s <> SLoading -> spec_step s SearchRequested SLoading schedule_fetch.

#[export] Hint Constructors spec_step : quotes.

(** The table as a function, for running it. *)
Definition spec_next (s : ApplicationState) (e : Event) : ApplicationState * Effect :=
  match e with
  | FetchCompleted (Ok q) => (SLoaded q, no_effect)
  | FetchCompleted (Err _) => (SErrored, no_effect)
  | SearchRequested =>
      if decide (s = SLoading) then (SLoading, no_effect)
      else (SLoading, schedule_fetch)
  end.

(** ** From the code to the specification *)

Definition abs_state (self : Quotes) : ApplicationState :=
  match self with
  | Loading => SLoading
  | Loaded quote => SLoaded quote
  | Errored => SErrored
  end.

Definition abs_event (message : Message) : Event :=
  match message with
  | QuoteFound r => FetchCompleted r
  | Search => SearchRequested
  end.

Definition abs_effect (command : Command Future Message) : Effect :=
  length command.

Definition conc_state (s : ApplicationState) : Quotes :=
  match s with
  | SLoading => Loading
  | SLoaded quote => Loaded quote
  | SErrored => Errored
  end.

(** ** Runs of the table *)

(** The table run over a list of events: the final state and the
    total number of fetches scheduled. *)
Fixpoint spec_run (es : list Event) (s : ApplicationState) : ApplicationState * Effect :=
  match es with
  | [] => (s, no_effect)
  | e :: es =>
      let '(s1, k1) := spec_next s e in
      let '(s2, k2) := spec_run es s1 in
      (s2, k1 + k2)
  end.

(** [update] run over a list of messages, likewise. *)
Fixpoint update_run (ms : list Message) (self : Quotes) : Quotes * nat :=
  match ms with
  | [] => (self, 0)
  | m :: ms =>
      let '(s1, c1) := update self m in
      let '(s2, k2) := update_run ms s1 in
      (s2, length c1 + k2)
  end.

(** ** The system *)

(** The application of sections 4.1 and 5 as a whole: the state of the
    table and the number of fetches in flight.  It starts in [Loading]
    with the one fetch that startup schedules; a completion takes a
    fetch in flight, so it cannot happen when there is none; the side
    effect of a transition adds to the fetches in flight. *)
Definition SystemState : Type := ApplicationState * nat.

Definition system_init : SystemState := (SLoading, 1).

Definition system_step (e : Event) (c : SystemState) : option SystemState :=
  match e, c.2 with
  | FetchCompleted _, 0 => None
  | FetchCompleted _, S n => let '(s, k) := spec_next c.1 e in Some (s, n + k)
  | SearchRequested, n => let '(s, k) := spec_next c.1 e in Some (s, n + k)
  end.

(** The events are what the system shows. *)
Definition system : Machine Event :=
  mkMachine system_step (fun e _ => [e]) system_init.

(** Section 5: at most one fetch is in flight, and one is exactly
    when the state is [Loading]. *)
Definition single_fetch (c : SystemState) : Prop :=
  c.2 = if decide (c.1 = SLoading) then 1 else 0.

(** ** The table is a function *)

Lemma spec_step_next s e s' k : spec_step s e s' k <-> spec_next s e = (s', k).
Proof.
  split.
  - intros []; simpl; try done; by case_decide.
  - destruct e as [[q|err]|]; simpl; [by intros [= <- <-]; constructor..|].
    case_decide; intros [= <- <-]; subst; by constructor.
Qed.

(** The transition table is deterministic: a state and an event
    have at most one next state and side effect. *)
Theorem spec_step_deterministic s e s1 k1 s2 k2 :
  spec_step s e s1 k1 -> spec_step s e s2 k2 -> s1 = s2 /\ k1 = k2.
Proof. rewrite !spec_step_next. intros -> [= -> ->]. done. Qed.

Lemma spec_step_deterministic_witness :
  SLoading = SLoading /\ schedule_fetch = schedule_fetch.
Proof.
  apply (spec_step_deterministic SErrored SearchRequested);
    by constructor.
Defined.

(** The transition table is total: no state is terminal, every
    event can be taken in every state. *)
Theorem spec_step_total s e : exists s' k, spec_step s e s' k.
Proof.
  exists (spec_next s e).1, (spec_next s e).2.
  apply spec_step_next. by destruct (spec_next s e).
Qed.

(** ** [update] implements the table *)

Lemma abs_conc_state s : abs_state (conc_state s) = s.
Proof. by destruct s. Qed.

Lemma conc_abs_state self : conc_state (abs_state self) = self.
Proof. by destruct self. Qed.

#[export] Instance abs_state_inj : Inj (=) (=) abs_state.
Proof. intros s1 s2 E. by rewrite <- (conc_abs_state s1), E, conc_abs_state. Qed.

Lemma abs_state_loading self : abs_state self = SLoading <-> is_loading self = true.
Proof. by destruct self. Qed.

(** C6: [update] refines the specification's transition table: from
    any state and for any message, the state it leaves and the number
    of fetches its command starts are the next state and the side
    effect the table gives for the corresponding event. *)
Theorem update_refines_spec (self : Quotes) (message : Message) :
  spec_step (abs_state self) (abs_event message)
            (abs_state (update self message).1)
            (abs_effect (update self message).2).
Proof.
  destruct message as [[q|e]|]; simpl; [constructor..|].
  destruct self; simpl; constructor; done.
Qed.

(** [update] computes what the table, as a function, gives. *)
Lemma update_spec_next (self : Quotes) (message : Message) :
  spec_next (abs_state self) (abs_event message)
  = (abs_state (update self message).1, abs_effect (update self message).2).
Proof. by destruct message as [[q|e]|], self. Qed.


(** [update] is the only implementation of the table: whatever
    step the table allows from the abstraction of a state is the one
    [update] takes. *)
Theorem spec_step_is_update (self : Quotes) (message : Message) s' k :
  spec_step (abs_state self) (abs_event message) s' k ->
  s' = abs_state (update self message).1
  /\ k = abs_effect (update self message).2.
Proof.
  intros Hstep%spec_step_next. rewrite update_spec_next in Hstep.
  by injection Hstep as <- <-.
Qed.

Lemma spec_step_is_update_witness :
  SLoaded (mkQuote "Be yourself" "Oscar Wilde")
  = abs_state (update Loading (QuoteFound (Ok (mkQuote "Be yourself" "Oscar Wilde")))).1
  /\ no_effect
     = abs_effect (update Loading (QuoteFound (Ok (mkQuote "Be yourself" "Oscar Wilde")))).2.
Proof.
  apply (spec_step_is_update Loading
           (QuoteFound (Ok (mkQuote "Be yourself" "Oscar Wilde")))).
  constructor.
Defined.

(** ** Runs *)

(** Over any sequence of messages, the code and the table end in
    corresponding states and have scheduled the same number of
    fetches. *)
Theorem update_run_refines_spec (ms : list Message) (self : Quotes) :
  spec_run (abs_event <$> ms) (abs_state self)
  = ((abs_state (update_run ms self).1), (update_run ms self).2).
Proof.
  revert self. induction ms as [|m ms IH]; intros self; [done|].
  simpl. rewrite update_spec_next.
  destruct (update self m) as [s1 c1]; simpl. rewrite IH.
  by destruct (update_run ms s1).
Qed.

(** ** The system *)

(** Section 5 holds of the system by its table alone. *)
Lemma system_step_single_fetch (e : Event) (c c' : SystemState) :
  single_fetch c -> system_step e c = Some c' -> single_fetch c'.
Proof.
  destruct c as [s n]. unfold single_fetch, system_step. simpl. intros ->.
  destruct e as [[q|err]|]; simpl; repeat case_decide; simpl;
    intros [= <-]; simpl; by repeat case_decide.
Qed.

Lemma system_single_fetch (c : SystemState) :
  reachable_from system_step system_init c -> single_fetch c.
Proof.
  intros Hc. revert c Hc. apply reachable_invariant; [done|].
  intros e c1 c2. apply system_step_single_fetch.
Qed.

(** What the system shows is the events it took. *)
Lemma system_trace (es : list Event) (c c' : SystemState) :
  run system_step es c = Some c' -> trace system_step (fun e _ => [e]) es c = es.
Proof.
  revert c. induction es as [|e es IH]; intros c; [done|]. simpl.
  destruct (system_step e c) as [c1|]; [|done]. simpl. intros Hrun.
  by rewrite (IH _ Hrun).
Qed.

(** The behaviours of the system are the lists of events it accepts. *)
Lemma system_behaviour (es : list Event) :
  behaviour system es <-> is_Some (run system_step es system_init).
Proof.
  split.
  - intros (es' & c & Hrun & Htr). simpl in *.
    rewrite (system_trace _ _ _ Hrun) in Htr. subst es'. by exists c.
  - intros [c Hrun]. exists es, c. split; [done|]. by eapply system_trace.
Qed.
