(* ===== verification/Runtime.v ===== *)
(** The toolkit's run loop, generic in the application: it owns the
    application state, the futures in flight, the window title, the
    widget tree on screen and the process's standard error.  One
    [Input] is one thing that happens to the loop: the user clicks a
    button of the tree on screen, a future completes, or the loop ends
    a batch of messages by refreshing the title and the tree.  The
    loop is modelled from the toolkit's behaviour and over-approximates
    it: clicks and completions may interleave freely inside a batch. *)

From stdpp Require Import prelude strings.
From S2P Require Import Prelude Iced.

(** What running a future to completion gives: its output and the
    lines it wrote to standard error, decided by what the outside
    world ([World]) answers. *)
Class Executor (Future : Type -> Type) : Type := {
  World : Type;
  Line : Type;
  poll : forall T : Type, Future T -> World -> T * list Line
}.
Arguments poll {Future _ T} future world.

Section runtime.
Context {State Message : Type} {Future : Type -> Type}.
Context `{!Application State Message Future} `{!Executor Future}.

Record Runtime : Type := mkRuntime {
  state : State;
  pending : list (Action Future Message);
  window_title : string;
  screen : Element Message;
  stderr : list Line
}.

Inductive Input : Type :=
| Press (n : nat)
| Done (i : nat) (world : World)
| Redraw.

(** The loop's start: [new], its command spawned, the first title and
    the first tree. *)
Definition boot : Runtime :=
  let '(s, command) := app_new in
  {| state := s; pending := command;
     window_title := app_title s; screen := app_view s; stderr := [] |}.

(** One message through [update], its command spawned. *)
Definition dispatch (message : Message) (rt : Runtime) : Runtime :=
  let '(s, command) := app_update (state rt) message in
  {| state := s; pending := pending rt ++ command;
     window_title := window_title rt; screen := screen rt;
     stderr := stderr rt |}.

(** The message a completed future comes back as. *)
Definition complete (a : Action Future Message) (world : World)
    : Message * list Line :=
  match a with
  | Perform future f => let '(v, out) := poll future world in (f v, out)
  end.

Definition refresh (rt : Runtime) : Runtime :=
  {| state := state rt; pending := pending rt;
     window_title := app_title (state rt); screen := app_view (state rt);
     stderr := stderr rt |}.

(** One input; [None] when it cannot happen: no such button on
    screen, no such future in flight. *)
Definition handle (input : Input) (rt : Runtime) : option Runtime :=
  match input with
  | Press n =>
      message ← on_presses (screen rt) !! n;
      Some (dispatch message rt)
  | Done i world =>
      a ← pending rt !! i;
      let '(message, out) := complete a world in
      Some (dispatch message
              {| state := state rt; pending := delete i (pending rt);
                 window_title := window_title rt; screen := screen rt;
                 stderr := stderr rt ++ out |})
  | Redraw => Some (refresh rt)
  end.

(** A batch: its inputs, then the refresh that ends it. *)
Definition batch (inputs : list Input) (rt : Runtime) : option Runtime :=
  rt' ← run handle inputs rt; handle Redraw rt'.

Definition reachable (rt : Runtime) : Prop := reachable_from handle boot rt.

(** The window shows what [title] and [view] give for the state. *)
Definition synced (rt : Runtime) : Prop :=
  window_title rt = app_title (state rt) /\ screen rt = app_view (state rt).

(** ** Counting futures *)

(** The message an input delivers to [update], when it delivers one. *)
Definition delivers (input : Input) (rt : Runtime) : option Message :=
  match input with
  | Press n => on_presses (screen rt) !! n
  | Done i world => a ← pending rt !! i; Some (complete a world).1
  | Redraw => None
  end.

(** The futures an input makes the loop spawn. *)
Definition starts (input : Input) (rt : Runtime) : nat :=
  from_option (fun message => length (app_update (state rt) message).2) 0
              (delivers input rt).

(** The futures spawned along a run of inputs. *)
Fixpoint started (inputs : list Input) (rt : Runtime) : nat :=
  match inputs with
  | [] => 0
  | input :: inputs =>
      starts input rt + from_option (started inputs) 0 (handle input rt)
  end.

Definition is_Done (input : Input) : bool :=
  match input with Done _ _ => true | _ => false end.

Definition is_Press (input : Input) : bool :=
  match input with Press _ => true | _ => false end.

(** The completions and the clicks among the inputs. *)
Definition completed (inputs : list Input) : nat :=
  length (filter is_Done inputs).

Definition clicked (inputs : list Input) : nat :=
  length (filter is_Press inputs).

(** ** The request-reply discipline *)

(** An application follows the discipline when its state counts the
    replies it waits for ([waiting]), every future it spawns comes
    back as a reply ([is_reply]), a message that is no reply raises
    the count by the futures it spawns, a reply lowers it by one, and
    the buttons of its views never emit replies. *)
Class RequestReply : Type := {
  waiting : State -> nat;
  is_reply : Message -> bool;
  rr_new : waiting app_new.1 = length app_new.2;
  rr_new_replies :
    Forall (fun a => forall world, is_reply (complete a world).1 = true) app_new.2;
  rr_spawn_replies s m :
    Forall (fun a => forall world, is_reply (complete a world).1 = true)
           (app_update s m).2;
  rr_request s m :
    is_reply m = false ->
    waiting (app_update s m).1 = waiting s + length (app_update s m).2;
  rr_reply s m :
    is_reply m = true -> 0 < waiting s ->
    S (waiting (app_update s m).1) = waiting s + length (app_update s m).2;
  rr_view s : Forall (fun m => is_reply m = false) (on_presses (app_view s))
}.

Context `{!RequestReply}.

Definition replies (a : Action Future Message) : Prop :=
  forall world, is_reply (complete a world).1 = true.

(** What the discipline keeps true of the loop. *)
Record disciplined (rt : Runtime) : Prop := mkDisciplined {
  disc_count : length (pending rt) = waiting (state rt);
  disc_replies : Forall replies (pending rt);
  disc_screen : Forall (fun m => is_reply m = false) (on_presses (screen rt))
}.

(** ** Lemmas *)

Lemma dispatch_state m rt : state (dispatch m rt) = (app_update (state rt) m).1.
Proof. unfold dispatch. by destruct (app_update _ _). Qed.

Lemma dispatch_pending m rt :
  pending (dispatch m rt) = pending rt ++ (app_update (state rt) m).2.
Proof. unfold dispatch. by destruct (app_update _ _). Qed.

Lemma dispatch_screen m rt : screen (dispatch m rt) = screen rt.
Proof. unfold dispatch. by destruct (app_update _ _). Qed.

Lemma dispatch_window_title m rt : window_title (dispatch m rt) = window_title rt.
Proof. unfold dispatch. by destruct (app_update _ _). Qed.

Lemma dispatch_stderr m rt : stderr (dispatch m rt) = stderr rt.
Proof. unfold dispatch. by destruct (app_update _ _). Qed.

Lemma handle_Press n rt :
  handle (Press n) rt = (fun m => dispatch m rt) <$> on_presses (screen rt) !! n.
Proof. simpl. by destruct (on_presses (screen rt) !! n). Qed.

Lemma handle_Done i world rt :
  handle (Done i world) rt =
  (fun a => dispatch (complete a world).1
              {| state := state rt; pending := delete i (pending rt);
                 window_title := window_title rt; screen := screen rt;
                 stderr := stderr rt ++ (complete a world).2 |})
  <$> pending rt !! i.
Proof.
  simpl. destruct (pending rt !! i) as [a|]; simpl; [|done].
  by destruct (complete a world).
Qed.

(** One input keeps the account of futures: what was in flight and
    what the input starts is what is in flight after it and what it
    completed. *)
Lemma handle_started input rt rt' :
  handle input rt = Some rt' ->
  length (pending rt) + starts input rt
  = length (pending rt') + (if is_Done input then 1 else 0).
Proof.
  unfold starts. destruct input as [n|i world|]; simpl delivers.
  - rewrite handle_Press. intros (m & Hm & ->)%fmap_Some. rewrite Hm. simpl.
    rewrite dispatch_pending, length_app. lia.
  - rewrite handle_Done. intros (a & Ha & ->)%fmap_Some.
    pose proof (lookup_lt_Some _ _ _ Ha).
    rewrite Ha, dispatch_pending, length_app. cbn [pending state mbind option_bind is_Done
      from_option]. rewrite length_delete by eauto. lia.
  - intros [= <-]. simpl. lia.
Qed.

Lemma completed_cons input inputs :
  completed (input :: inputs)
  = (if is_Done input then 1 else 0) + completed inputs.
Proof. unfold completed. rewrite filter_cons. by destruct (is_Done input). Qed.

Lemma clicked_cons input inputs :
  clicked (input :: inputs)
  = (if is_Press input then 1 else 0) + clicked inputs.
Proof. unfold clicked. rewrite filter_cons. by destruct (is_Press input). Qed.

Lemma boot_disciplined : disciplined boot.
Proof.
  unfold boot. pose proof rr_new as Hn. pose proof rr_new_replies as Hr.
  destruct app_new as [s c]. split; simpl in *; [done|done|apply rr_view].
Qed.

Lemma dispatch_request m rt :
  disciplined rt -> is_reply m = false -> disciplined (dispatch m rt).
Proof.
  intros [Hc Hr Hs] Hm. split.
  - rewrite dispatch_state, dispatch_pending, length_app, Hc. by rewrite rr_request.
  - rewrite dispatch_pending. apply Forall_app; split; [done|apply rr_spawn_replies].
  - by rewrite dispatch_screen.
Qed.

Lemma handle_Done_disciplined i world rt rt' :
  disciplined rt -> handle (Done i world) rt = Some rt' -> disciplined rt'.
Proof.
  intros [Hc Hr Hs] Hh. simpl in Hh.
  destruct (pending rt !! i) as [a|] eqn:Ha; simplify_eq/=.
  pose proof (Forall_lookup_1 _ _ _ _ Hr Ha world) as Hm.
  destruct (complete a world) as [m out]; simplify_eq/=.
  pose proof (lookup_lt_Some _ _ _ Ha) as Hlt.
  split.
  - rewrite dispatch_state, dispatch_pending, length_app; simpl.
    rewrite length_delete by eauto.
    pose proof (rr_reply (state rt) m Hm) as Hrep. lia.
  - rewrite dispatch_pending; simpl. apply Forall_app; split;
      [by apply Forall_delete | apply rr_spawn_replies].
  - by rewrite dispatch_screen.
Qed.

Lemma handle_disciplined input rt rt' :
  disciplined rt -> handle input rt = Some rt' -> disciplined rt'.
Proof.
  intros Hd Hh. destruct input as [n|i world|].
  - simpl in Hh. destruct (on_presses (screen rt) !! n) as [m|] eqn:Hm;
      simplify_eq/=. apply dispatch_request; [done|].
    by eapply (Forall_lookup_1 _ _ _ _ (disc_screen _ Hd)).
  - by eapply handle_Done_disciplined.
  - simplify_eq/=. destruct Hd as [Hc Hr _]. split; [done|done|apply rr_view].
Qed.

(** ** Theorems *)

(** Under the request-reply discipline, in every state the run
    loop can reach the number of futures in flight is the number of
    replies the application state waits for, every future in flight
    comes back as a reply, and no button on screen emits a reply. *)
Theorem reachable_disciplined (rt : Runtime) : reachable rt -> disciplined rt.
Proof.
  apply reachable_invariant; [apply boot_disciplined|].
  intros input s s'. apply handle_disciplined.
Qed.

(** A batch ends with the window showing the title and the tree
    of the state the batch left, whatever the batch did. *)
Theorem batch_synced (inputs : list Input) (rt rt' : Runtime) :
  batch inputs rt = Some rt' -> synced rt'.
Proof.
  unfold batch. destruct (run handle inputs rt) as [rt1|]; simpl; [|done].
  by intros [= <-].
Qed.

(** A batch never fails at its end: it runs exactly when its
    inputs do. *)
Theorem batch_runs (inputs : list Input) (rt : Runtime) :
  is_Some (batch inputs rt) <-> is_Some (run handle inputs rt).
Proof.
  unfold batch. destruct (run handle inputs rt); simpl; [|done].
  split; eauto.
Qed.

(** Along every run, for every application: the futures in flight
    at the start and those spawned on the way are the futures in
    flight at the end and those completed on the way.  No future is
    lost and none completes twice. *)
Theorem started_conservation (inputs : list Input) (rt rt' : Runtime) :
  run handle inputs rt = Some rt' ->
  length (pending rt) + started inputs rt
  = length (pending rt') + completed inputs.
Proof.
  revert rt. induction inputs as [|input inputs IH]; intros rt; simpl.
  - intros [= <-]. unfold completed. simpl. lia.
  - destruct (handle input rt) as [rt1|] eqn:Hh; [simpl|done]. intros Hrun.
    rewrite completed_cons. apply handle_started in Hh. apply IH in Hrun. lia.
Qed.

Lemma batch_reachable inputs rt rt' :
  reachable rt -> batch inputs rt = Some rt' -> reachable rt'.
Proof.
  unfold batch. intros Hr Hb.
  destruct (run handle inputs rt) as [rt1|] eqn:E; simplify_eq/=.
  eapply reachable_from_trans; [done|]. exists (inputs ++ [Redraw]).
  by rewrite run_snoc, E.
Qed.
End runtime.

Arguments Runtime State Message Future {_}.
Arguments Input {Future _}.
Arguments RequestReply State Message Future {_ _}.
