(* ===== verification/Main.v ===== *)
(** The whole program: the run loop of [Runtime] started on the
    application of [App], with the futures it spawns run by the
    fetcher of [Fetcher] against a network.  The theorems are about
    every state the running program can reach. *)

From stdpp Require Import prelude strings.
From S2P Require Import Prelude Iced Quote Serde Fetcher App Runtime.

Local Open Scope string_scope.
Local Open Scope list_scope.

(** ** The program *)

(** Running the application's one future means running the fetcher
    against the network of the moment. *)
#[export] Instance Quotes_Executor : Executor Future := {|
  World := Network;
  Line := DbgLine;
  poll T future :=
    match future in Future T return Network -> T * list DbgLine with
    | SearchFuture => Quote_search
    end
|}.

Definition QuotesRuntime : Type := Runtime Quotes Message Future.

(** [pub fn main() -> iced::Result]: the run loop on [Quotes], with
    the default settings. *)
Definition main : QuotesRuntime := boot.

Definition QuotesInput : Type := @Input Future Quotes_Executor.

(** The inputs the program can take: the fetch in flight completes
    against a network, the user clicks the button on screen, the
    window is refreshed. *)
Definition completes (net : Network) : QuotesInput := Done 0 net.
Definition clicks : QuotesInput := Press 0.
Definition redraws : QuotesInput := Redraw.

(** The one action the program ever spawns. *)
Definition search_action : Action Future Message :=
  Perform SearchFuture QuoteFound.

(** What an input shows of a run: the message it delivers to
    [update], if it delivers one. *)
Definition delivery (input : QuotesInput) (rt : QuotesRuntime) : list Message :=
  option_list (delivers input rt).

(** The lines [dbg!] writes for a list of errors. *)
Definition error_lines (errors : list reqwest_Error) : list DbgLine :=
  dbg "error" <$> errors.

(** What holds of the program between any two inputs: the fetch in
    flight is the one the state waits for; the window shows the title
    and the tree of some state [shown]; an error, in the state or on
    screen, has its cause on standard error, the last line when the
    error is the state; and standard error holds [dbg!] lines only. *)
Record coherent (rt : QuotesRuntime) : Prop := mkCoherent {
  coh_pending : pending rt = if is_loading (state rt) then [search_action] else [];
  coh_window :
    exists shown, window_title rt = title shown /\ screen rt = view shown
                  /\ (shown = Errored -> stderr rt <> []);
  coh_stderr :
    state rt = Errored -> exists error, last (stderr rt) = Some (dbg "error" error);
  coh_lines : exists errors, stderr rt = error_lines errors
}.

(** ** States and inputs the theorems speak of *)

(** The program after a failed first fetch and a click on "Try
    again": it waits for the second fetch with the error still on
    screen. *)
Definition retrying : QuotesRuntime :=
  {| state := Loading; pending := [search_action];
     window_title := title Errored; screen := view Errored;
     stderr := [dbg "error" Request] |}.

(** The program while it waits for a fetch, with a given state on
    screen and given errors logged so far. *)
Definition waiting_with (shown : Quotes) (errors : list reqwest_Error)
    : QuotesRuntime :=
  {| state := Loading; pending := [search_action];
     window_title := title shown; screen := view shown;
     stderr := error_lines errors |}.

(** The fetch fails, the error is shown, the user tries again. *)
Definition fail_and_retry (error : reqwest_Error) : list QuotesInput :=
  [completes (failing error); redraws; clicks].

(** Inputs that put a state on screen while the program waits. *)
Definition show (shown : Quotes) : list QuotesInput :=
  match shown with
  | Loading => [redraws]
  | Loaded q => [completes (answering (quote_response q)); redraws; clicks]
  | Errored => []
  end.

(** A network whose answer is a server error with a body that is
    JSON and no entry: the fetch fails at the decoding. *)
Definition garbled : Network := answering (mkResponse 500 (Document JNull)).

(** The quote of the specification's scenarios. *)
Definition wilde : Quote := mkQuote "Be yourself" "Oscar Wilde".

(** What a user and an observer of the process see of a state. *)
Definition snapshot (rt : QuotesRuntime) : Quotes * nat * string * list string :=
  (state rt, length (pending rt), window_title rt, texts (screen rt)).

(** The methods behind the trait. *)
Ltac unfold_app :=
  cbn [app_new app_title app_update app_view Quotes_Application] in *.

(** [n < k] for [k] 0 or 1 against "[n] is 0 and [P]". *)
Ltac solve_index :=
  split;
  [ intros ?; first [lia | split; [lia|done]]
  | intros [-> H]; first [lia | done | by destruct H] ].

(** ** Lemmas *)

(** Completing the one future there is runs the fetcher, whatever
    wraps its output. *)
Lemma complete_SearchFuture (f : result Quote Error -> Message) (net : Network) :
  complete (Perform SearchFuture f) net
  = (f (Quote_search net).1, (Quote_search net).2).
Proof. simpl. by destruct (Quote_search net). Qed.

Lemma complete_search_action (net : Network) :
  complete search_action net
  = (QuoteFound (Quote_search net).1, (Quote_search net).2).
Proof. apply complete_SearchFuture. Qed.

Lemma main_unfold :
  main = {| state := Loading; pending := [search_action];
            window_title := title Loading; screen := view Loading;
            stderr := [] |}.
Proof. reflexivity. Qed.

Lemma on_presses_view_lookup (s : Quotes) (n : nat) (m : Message) :
  on_presses (view s) !! n = Some m -> m = Search.
Proof.
  destruct s, n as [|[|n]]; simpl; intros; by simplify_eq.
Qed.

(** The buttons of a coherent state emit [Search]. *)
Lemma coherent_on_presses (rt : QuotesRuntime) (n : nat) (m : Message) :
  coherent rt -> on_presses (screen rt) !! n = Some m -> m = Search.
Proof.
  intros Hc. destruct (coh_window _ Hc) as (s & _ & -> & _).
  apply on_presses_view_lookup.
Qed.

Lemma main_coherent : coherent main.
Proof.
  rewrite main_unfold. split; simpl; [done|by exists Loading|done|by exists []].
Qed.

Lemma last_Some_nonempty {A} (l : list A) (x : A) : last l = Some x -> l <> [].
Proof. by intros H ->. Qed.

Lemma dispatch_Search_coherent (rt : QuotesRuntime) :
  coherent rt -> coherent (dispatch Search rt).
Proof.
  intros [Hp Hw He Hl]. split.
  - rewrite dispatch_pending, dispatch_state, Hp.
    by destruct (state rt).
  - by rewrite dispatch_window_title, dispatch_screen, dispatch_stderr.
  - rewrite dispatch_state. by destruct (state rt).
  - by rewrite dispatch_stderr.
Qed.

(** What a fetch adds to standard error. *)
Lemma Quote_search_lines (net : Network) :
  (exists q, Quote_search net = (Ok q, []))
  \/ (exists error, Quote_search net = (Err APIError, [dbg "error" error])).
Proof.
  rewrite Quote_search_unfold. destruct (fetch_entry net); [left|right]; eauto.
Qed.

(** A fetch result arriving while the state waits for it. *)
Lemma dispatch_QuoteFound_coherent (rt : QuotesRuntime) (net : Network) :
  coherent rt -> is_loading (state rt) = true ->
  coherent (dispatch (QuoteFound (Quote_search net).1)
              {| state := state rt; pending := delete 0 (pending rt);
                 window_title := window_title rt; screen := screen rt;
                 stderr := stderr rt ++ (Quote_search net).2 |}).
Proof.
  intros [Hp (shown & Ht & Hs & Hn) He [errors Hl]] Hw. rewrite Hw in Hp. split.
  - rewrite dispatch_pending, dispatch_state; simpl. rewrite Hp.
    by destruct (Quote_search net).1.
  - rewrite dispatch_window_title, dispatch_screen, dispatch_stderr; simpl.
    exists shown. split_and!; [done..|]. intros ? [? _]%app_eq_nil. by apply Hn.
  - rewrite dispatch_stderr, dispatch_state; simpl.
    destruct (Quote_search_lines net) as [[q ->]|[error ->]]; simpl; [done|].
    intros _. exists error. apply last_snoc.
  - rewrite dispatch_stderr; simpl. rewrite Hl.
    destruct (Quote_search_lines net) as [[q ->]|[error ->]]; simpl.
    + exists errors. apply (right_id_L [] (++)).
    + exists (errors ++ [error]). unfold error_lines. by rewrite fmap_app.
Qed.

Lemma refresh_coherent (rt : QuotesRuntime) : coherent rt -> coherent (refresh rt).
Proof.
  intros [Hp _ He Hl]. split; [done| |done..].
  exists (state rt). split_and!; [done..|].
  intros [error Hlast]%He. by eapply last_Some_nonempty.
Qed.

Lemma handle_coherent (input : QuotesInput) (rt rt' : QuotesRuntime) :
  coherent rt -> handle input rt = Some rt' -> coherent rt'.
Proof.
  intros Hc Hh. destruct input as [n|i net|].
  - rewrite handle_Press in Hh. apply fmap_Some in Hh as (m & Hm & ->).
    destruct (coh_window _ Hc) as (s & _ & Hs & _). rewrite Hs in Hm.
    apply on_presses_view_lookup in Hm as ->.
    by apply dispatch_Search_coherent.
  - rewrite handle_Done in Hh. apply fmap_Some in Hh as (a & Ha & ->).
    rewrite (coh_pending _ Hc) in Ha.
    destruct (is_loading (state rt)) eqn:Hl; [|done].
    destruct i as [|i]; [|done]. injection Ha as <-.
    rewrite complete_search_action. by apply dispatch_QuoteFound_coherent.
  - injection Hh as <-. by apply refresh_coherent.
Qed.

(** Coherence is kept along every run. *)
Lemma run_coherent (inputs : list QuotesInput) (rt rt' : QuotesRuntime) :
  coherent rt -> run handle inputs rt = Some rt' -> coherent rt'.
Proof. apply run_invariant. intros input s s'. apply handle_coherent. Qed.

(** ** The single fetch *)

(** C7: in every state the running program can reach, the fetches in
    flight are exactly the one [Quote::search()] whose result goes to
    [QuoteFound] when the state is [Loading], and none otherwise; the
    window shows the title and the tree of some state; an error on
    screen has a line on standard error; in an [Errored] state the
    last line of standard error is a [dbg!] line of some error; and
    standard error holds nothing but such lines. *)
Theorem reachable_coherent (rt : QuotesRuntime) :
  reachable_from handle main rt -> coherent rt.
Proof. intros [inputs Hrun]. by eapply run_coherent, Hrun; apply main_coherent. Qed.

Lemma reachable_coherent_witness : coherent retrying.
Proof.
  apply reachable_coherent. exists [completes (failing Request); redraws; clicks].
  reflexivity.
Defined.

(** C5: the running program never has more than one fetch in flight,
    and has one exactly when its state is [Loading]. *)
Theorem at_most_one_fetch (rt : QuotesRuntime) :
  reachable_from handle main rt ->
  length (pending rt) <= 1
  /\ (length (pending rt) = 1 <-> state rt = Loading).
Proof.
  intros [inputs [Hp _ _ _]%(run_coherent _ _ _ main_coherent)]. rewrite Hp.
  destruct (state rt); simpl; split; try lia; split; intros; by simplify_eq.
Qed.

Lemma at_most_one_fetch_witness :
  length [search_action] <= 1 /\ (length [search_action] = 1 <-> Loading = Loading).
Proof.
  apply (at_most_one_fetch retrying).
  exists [completes (failing Request); redraws; clicks; clicks]. reflexivity.
Defined.

(** ** Every coherent state is reachable *)

Lemma run_fail_and_retry shown errors error :
  run handle (fail_and_retry error) (waiting_with shown errors)
  = Some (waiting_with Errored (errors ++ [error])).
Proof. unfold waiting_with, error_lines. by rewrite fmap_app. Qed.

Lemma run_failures shown errors :
  run handle (errors ≫= fail_and_retry) (waiting_with shown [])
  = Some (waiting_with (if errors is [] then shown else Errored) errors).
Proof.
  induction errors as [|error errors IH] using rev_ind; [done|].
  rewrite bind_app, run_app, IH.
  change ([error] ≫= fail_and_retry) with (fail_and_retry error ++ []).
  rewrite (right_id_L [] (++)). cbn [mbind option_bind].
  rewrite run_fail_and_retry. by destruct errors.
Qed.

Lemma run_show shown0 shown errors :
  (shown = Errored -> shown0 = Errored) ->
  run handle (show shown) (waiting_with shown0 errors)
  = Some (waiting_with shown errors).
Proof.
  destruct shown as [|[c a]|]; intros Hs; simpl.
  - done.
  - unfold waiting_with. by rewrite (right_id_L [] (++)).
  - by rewrite Hs.
Qed.

Lemma reachable_waiting_with shown errors :
  (shown = Errored -> errors <> []) ->
  reachable_from handle main (waiting_with shown errors).
Proof.
  intros Hs. exists ((errors ≫= fail_and_retry) ++ show shown).
  rewrite run_app. change main with (waiting_with Loading []).
  rewrite run_failures. simpl. apply run_show.
  intros He%Hs. by destruct errors.
Qed.

Lemma error_lines_nonempty errors : error_lines errors <> [] -> errors <> [].
Proof. by intros H ->. Qed.

Lemma error_lines_last errors error :
  last (error_lines errors) = Some (dbg "error" error) ->
  exists errors', errors = errors' ++ [error].
Proof.
  destruct errors as [|e errors _] using rev_ind; [done|].
  unfold error_lines. rewrite fmap_app. simpl. rewrite last_snoc.
  intros [= ->]. eauto.
Qed.

(** The first fetch fails and the error is shown. *)
Lemma reachable_first_failure error :
  reachable_from handle main
    {| state := Errored; pending := []; window_title := title Errored;
       screen := view Errored; stderr := error_lines [error] |}.
Proof. by exists [completes (failing error); redraws]. Qed.

(** A state that is not [Loading], reached by the completion of the
    fetch the program was waiting for. *)
Lemma reachable_settled shown errors net :
  (shown = Errored -> errors <> []) ->
  reachable_from handle main
    (dispatch (QuoteFound (Quote_search net).1)
       {| state := Loading; pending := [];
          window_title := title shown; screen := view shown;
          stderr := error_lines errors ++ (Quote_search net).2 |}).
Proof.
  intros Hs. eapply reachable_from_step; [by apply reachable_waiting_with|].
  instantiate (1 := completes net). unfold completes.
  by rewrite handle_Done; simpl; destruct (Quote_search net).
Qed.

(** C8: the invariant is exact: every state it allows is one the
    running program reaches.  In particular every quote can come to
    be the loaded one, and any state can be on screen while any other
    is the current one. *)
Theorem coherent_reachable (rt : QuotesRuntime) :
  coherent rt -> reachable_from handle main rt.
Proof.
  destruct rt as [s p t scr err].
  intros [Hp (shown & Ht & Hs & Hn) He [errors Hl]]; simpl in *. subst p t scr err.
  destruct s as [|[c a]|].
  - apply reachable_waiting_with. intros E. by apply error_lines_nonempty, Hn.
  - pose proof (reachable_settled shown errors
                  (answering (quote_response (mkQuote c a)))) as H.
    simpl in H. rewrite (right_id_L [] (++)) in H. apply H.
    intros E. by apply error_lines_nonempty, Hn.
  - destruct (He eq_refl) as [error [errors' ->]%error_lines_last].
    destruct (decide (shown = Errored /\ errors' = [])) as [[-> ->]|Hne].
    { apply reachable_first_failure. }
    pose proof (reachable_settled shown errors' (failing error)) as H.
    simpl in H. unfold error_lines. rewrite fmap_app. apply H.
    intros -> ->. by apply Hne.
Qed.

Lemma coherent_reachable_witness :
  reachable_from handle main
    {| state := Loaded (mkQuote "Be yourself" "Oscar Wilde"); pending := [];
       window_title := title Errored; screen := view Errored;
       stderr := error_lines [Redirect; Decode] |}.
Proof.
  apply coherent_reachable. split; simpl; [done| |done|by exists [Redirect; Decode]].
  exists Errored. by split_and!.
Defined.

(** ** What can happen next *)

Lemma handle_is_Some_Press (rt : QuotesRuntime) (n : nat) :
  synced rt ->
  is_Some (handle (Press n) rt) <-> n = 0 /\ state rt <> Loading.
Proof.
  intros [_ Hs]. rewrite handle_Press, fmap_is_Some, Hs, lookup_lt_is_Some.
  unfold_app. destruct (state rt); simpl; solve_index.
Qed.

Lemma handle_is_Some_Done (rt : QuotesRuntime) (i : nat) (net : Network) :
  coherent rt ->
  is_Some (handle (Done i net) rt) <-> i = 0 /\ state rt = Loading.
Proof.
  intros [Hp _ _ _]. rewrite handle_Done, fmap_is_Some, Hp, lookup_lt_is_Some.
  destruct (state rt); simpl; solve_index.
Qed.

(** C26: between batches the program accepts exactly these inputs: the
    completion of the fetch when the state is [Loading], and a click
    on the one button when it is not.  While a fetch is in flight the
    user can neither abort it nor start another. *)
Theorem enabled_inputs (rt : QuotesRuntime) (input : QuotesInput) :
  reachable_from handle main rt -> synced rt ->
  is_Some (handle input rt) <->
  match input with
  | Press n => n = 0 /\ state rt <> Loading
  | Done i _ => i = 0 /\ state rt = Loading
  | Redraw => True
  end.
Proof.
  intros [inputs Hc%(run_coherent _ _ _ main_coherent)] Hs.
  destruct input as [n|i net|].
  - by apply handle_is_Some_Press.
  - by apply handle_is_Some_Done.
  - simpl. split; eauto.
Qed.

Lemma enabled_inputs_witness : is_Some (handle clicks (refresh retrying)) <-> 0 = 0 /\ Loading <> Loading.
Proof.
  apply (enabled_inputs (refresh retrying) clicks).
  - exists [completes (failing Request); redraws; clicks; redraws]. reflexivity.
  - split; reflexivity.
Defined.

(** C27: the program is never stuck and never stays put: in every
    reachable state either the fetch can complete, which leaves
    [Loading], or after a refresh the button can be clicked, which
    enters [Loading] and starts one fetch. *)
Theorem never_stuck (rt : QuotesRuntime) :
  reachable_from handle main rt ->
  (state rt = Loading /\
   forall net, exists rt', handle (completes net) rt = Some rt'
                           /\ state rt' <> Loading /\ pending rt' = [])
  \/ (state rt <> Loading /\
      exists rt', run handle [redraws; clicks] rt = Some rt'
                  /\ state rt' = Loading /\ pending rt' = [search_action]).
Proof.
  intros [inputs Hc%(run_coherent _ _ _ main_coherent)].
  pose proof (coh_pending _ Hc) as Hp.
  destruct (state rt) as [|q|] eqn:Hst; [left|right..]; (split; [done|]).
  - intros net. eexists. split; [unfold completes; by rewrite handle_Done, Hp|].
    rewrite dispatch_state, dispatch_pending; simpl.
    rewrite ?Hst, ?Hp. by destruct (Quote_search net) as [[q|e] out].
  - eexists. split; [unfold redraws, clicks; simpl; unfold_app; by rewrite Hst|].
    rewrite dispatch_state, dispatch_pending; simpl. by rewrite ?Hst, ?Hp.
  - eexists. split; [unfold redraws, clicks; simpl; unfold_app; by rewrite Hst|].
    rewrite dispatch_state, dispatch_pending; simpl. by rewrite ?Hst, ?Hp.
Qed.

Lemma never_stuck_witness :
  (state retrying = Loading /\
   forall net, exists rt', handle (completes net) retrying = Some rt'
                           /\ state rt' <> Loading /\ pending rt' = [])
  \/ (state retrying <> Loading /\
      exists rt', run handle [redraws; clicks] retrying = Some rt'
                  /\ state rt' = Loading /\ pending rt' = [search_action]).
Proof.
  apply (never_stuck retrying).
  exists [completes (failing Request); redraws; clicks]. reflexivity.
Defined.

(** ** The request-reply discipline *)

Lemma update_spawns_replies (s : Quotes) (m : Message) :
  Forall (fun a : Action Future Message =>
            forall net : Network, negb (is_search (complete a net).1) = true)
         (update s m).2.
Proof.
  destruct m as [[q|e]|], s; repeat constructor;
    intros net; simpl; by destruct (Quote_search net).
Qed.

(** [Quotes] follows the discipline of [Runtime]: [Search] is its
    request, [QuoteFound] its reply, and [Loading] the state that
    waits for one reply. *)
#[export] Instance Quotes_RequestReply : RequestReply Quotes Message Future.
Proof.
  refine {| waiting := in_flight; is_reply m := negb (is_search m) |}.
  - reflexivity.
  - apply (update_spawns_replies Errored Search).
  - apply update_spawns_replies.
  - intros s [r|] Hm; [done|]. apply update_Search_balance.
  - intros s [r|] Hm Hw; [|done]. unfold_app.
    destruct (update_QuoteFound_settles s r) as [-> ->].
    destruct s; cbv in Hw |- *; lia.
  - intros s. unfold_app. destruct s; repeat constructor.
Defined.

(** The application keeps the discipline the run loop relies on,
    so the generic invariant of the run loop holds of the program:
    the futures in flight are as many as the state waits for, each
    comes back as [QuoteFound], and no button on screen emits
    [QuoteFound]. *)
Theorem main_disciplined (rt : QuotesRuntime) :
  reachable_from handle main rt -> disciplined rt.
Proof. apply reachable_disciplined. Qed.

Lemma main_disciplined_witness : disciplined retrying.
Proof.
  apply main_disciplined.
  exists [completes (failing Request); redraws; clicks]. reflexivity.
Defined.

(** Clicks on a button that emits [Search] change nothing while the
    program waits for a fetch. *)
Lemma clicks_while_loading (n : nat) (rt : QuotesRuntime) :
  state rt = Loading -> on_presses (screen rt) !! 0 = Some Search ->
  run handle (replicate n clicks) rt = Some rt.
Proof.
  intros Hs Hb. induction n as [|n IH]; [done|].
  destruct rt as [s p t sc e]. simpl in Hs, Hb. subst s.
  simpl in *. rewrite Hb. simpl. unfold dispatch. simpl.
  by rewrite app_nil_r.
Qed.

(** ** The scenarios of the specification *)

(** C36: scenario 1: the program starts in [Loading] with one fetch in
    flight; when the fetch succeeds with a quote, whatever the network
    sent for it, the state is [Loaded] with that quote, no fetch is in
    flight, the window is titled with the author and shows the
    content, the author after a dash, and the button. *)
Theorem scenario_success (net : Network) (quote : Quote) :
  (Quote_search net).1 = Ok quote ->
  snapshot main
  = (Loading, 1, "Loading - Pokédex", ["Searching for Quotes..."])
  /\ snapshot <$> batch [completes net] main
     = Some (Loaded quote, 0, (author quote ++ " - Pokédex")%string,
             [content quote; ("-" ++ author quote)%string; "Keep searching!"]).
Proof.
  intros Hq. split; [reflexivity|]. unfold batch, completes. simpl.
  destruct (Quote_search net) as [r out]; simpl in Hq; by subst r.
Qed.

Lemma scenario_success_witness :
  snapshot main
  = (Loading, 1, "Loading - Pokédex", ["Searching for Quotes..."])
  /\ snapshot <$> batch [completes (answering (quote_response wilde))] main
     = Some (Loaded wilde, 0, "Oscar Wilde - Pokédex",
             ["Be yourself"; "-Oscar Wilde"; "Keep searching!"]).
Proof. by apply (scenario_success (answering (quote_response wilde)) wilde). Defined.

(** C37: scenario 2: when the first fetch fails, on whatever network
    and for whatever reason (the GET fails, the body cannot be read or
    does not decode), the state is [Errored], nothing is in flight,
    the window is titled ["Whoops! - Pokédex"] and shows the apology
    and the retry button, and the reqwest error of the fetch is the
    one line on standard error. *)
Theorem scenario_failure (net : Network) (cause : reqwest_Error) :
  fetch_entry net = Err cause ->
  (fun rt => (snapshot rt, stderr rt)) <$> batch [completes net] main
  = Some ((Errored, 0, "Whoops! - Pokédex",
           ["Whoops! Something went wrong..."; "Try again"]),
          [dbg "error" cause]).
Proof.
  intros Hf. unfold batch, completes. simpl.
  by rewrite Quote_search_unfold, Hf.
Qed.

Lemma scenario_failure_witness :
  (fun rt => (snapshot rt, stderr rt)) <$> batch [completes garbled] main
  = Some ((Errored, 0, "Whoops! - Pokédex",
           ["Whoops! Something went wrong..."; "Try again"]),
          [dbg "error" Decode]).
Proof. by apply (scenario_failure garbled Decode). Defined.

(** C38: scenario 3: after a failed first fetch, on whatever network
    and for whatever reason, a click on "Try again" enters [Loading]
    and starts one fetch, and any number of further clicks before the
    window is refreshed change nothing: one fetch is in flight, the
    log is as it was, and the window, once refreshed, shows the
    loading screen, on which a click is no longer possible. *)
Theorem scenario_retry (net : Network) (cause : reqwest_Error) (n : nat) :
  fetch_entry net = Err cause ->
  let retried := batch [completes net] main ≫= batch (replicate (S n) clicks) in
  (fun rt => (snapshot rt, stderr rt)) <$> retried
  = Some ((Loading, 1, "Loading - Pokédex", ["Searching for Quotes..."]),
          [dbg "error" cause])
  /\ retried ≫= handle clicks = None.
Proof.
  intros Hf retried.
  assert (retried = Some (refresh (waiting_with Errored [cause]))) as ->; [|done].
  unfold retried, batch at 2, completes. simpl.
  rewrite Quote_search_unfold, Hf. simpl. unfold batch. cbn [replicate run].
  change (handle clicks ?rt) with (Some (waiting_with Errored [cause])). simpl.
  by rewrite clicks_while_loading.
Qed.

Lemma scenario_retry_witness :
  let retried := batch [completes garbled] main ≫= batch [clicks; clicks; clicks] in
  (fun rt => (snapshot rt, stderr rt)) <$> retried
  = Some ((Loading, 1, "Loading - Pokédex", ["Searching for Quotes..."]),
          [dbg "error" Decode])
  /\ retried ≫= handle clicks = None.
Proof. by apply (scenario_retry garbled Decode 2). Defined.

(** C39: scenario 4: from [Loaded] a click on "Keep searching!" enters
    [Loading] at once: the quote is gone from the state and from the
    screen before the new fetch completes. *)
Theorem scenario_keep_searching (net : Network) (quote : Quote) :
  (Quote_search net).1 = Ok quote ->
  snapshot <$> (batch [completes net] main ≫= batch [clicks])
  = Some (Loading, 1, "Loading - Pokédex", ["Searching for Quotes..."]).
Proof.
  intros Hq. unfold batch, completes, clicks. simpl.
  destruct (Quote_search net) as [r out]; simpl in Hq; by subst r.
Qed.

Lemma scenario_keep_searching_witness :
  snapshot <$> (batch [completes (answering (quote_response wilde))] main
               ≫= batch [clicks])
  = Some (Loading, 1, "Loading - Pokédex", ["Searching for Quotes..."]).
Proof. by apply (scenario_keep_searching _ wilde). Defined.
