(* ===== verification/Alike.v ===== *)
(** What the program can tell of the network.  Two networks are alike
    when they answer the GET of the fixed URL with the same error, or
    with responses whose bodies are the same up to what the decoder
    of [Entry] does not look at: the status code, the order of the
    members of the object and the members that name no field.  The
    fetcher and the run loop give equal results on networks that are
    alike, so [rewrite] works with the relation. *)

From stdpp Require Import prelude strings.
From S2P Require Import Prelude Iced Quote Serde Fetcher App Runtime Main.

Local Open Scope string_scope.
Local Open Scope list_scope.

(** ** The relations *)

(** The members of an object that name a field of [Entry]. *)
Definition fields (members : list (string * json)) : list (string * json) :=
  filter (fun kv => Field_of_key kv.1 <> field_ignore) members.

(** Two documents with the same fields, in any order. *)
Inductive same_fields : relation json :=
| same_fields_object ms1 ms2 :
    fields ms1 ≡ₚ fields ms2 -> same_fields (JObject ms1) (JObject ms2)
| same_fields_refl j : same_fields j j.

Definition same_body : relation ResponseBody :=
  fun b1 b2 =>
    match b1, b2 with
    | Document j1, Document j2 => same_fields j1 j2
    | _, _ => b1 = b2
    end.

(** Two answers to a GET: the same error, or two responses with the
    same body, whatever their status codes. *)
Definition same_answer : relation (result Response reqwest_Error) :=
  fun a1 a2 =>
    match a1, a2 with
    | Ok r1, Ok r2 => same_body (body r1) (body r2)
    | Err e1, Err e2 => e1 = e2
    | _, _ => False
    end.

(** Two networks that answer the fixed URL alike. *)
Definition alike : relation Network :=
  fun net1 net2 => same_answer (net1 url) (net2 url).

(** Two inputs of the run loop that differ in networks that are
    alike. *)
Inductive same_input : relation QuotesInput :=
| same_Press n : same_input (Press n) (Press n)
| same_Done i net1 net2 : alike net1 net2 -> same_input (Done i net1) (Done i net2)
| same_Redraw : same_input Redraw Redraw.

(** Two answers of the quote service that are alike and not equal. *)
Definition plain_answer : Network :=
  answering (mkResponse 200 (Document (JObject
    [("_id", JString "x1"); ("content", JString "Be yourself");
     ("author", JString "Oscar Wilde")]))).

Definition odd_answer : Network :=
  answering (mkResponse 404 (Document (JObject
    [("author", JString "Oscar Wilde"); ("tags", JArray [JString "wit"]);
     ("content", JString "Be yourself"); ("tags", JNull)]))).

(** ** The relations are equivalences *)

#[export] Instance same_fields_equivalence : Equivalence same_fields.
Proof.
  split.
  - intros j. apply same_fields_refl.
  - intros j1 j2 [ms1 ms2 Hp|j]; by constructor.
  - intros j1 j2 j3 [ms1 ms2 Hp|j] H23; [|done].
    inversion H23; subst; constructor; [by etrans|done].
Qed.

#[export] Instance same_body_equivalence : Equivalence same_body.
Proof.
  split.
  - intros [| |j]; simpl; [done..|reflexivity].
  - intros [| |j1] [| |j2]; simpl; first [done|apply symmetry].
  - intros [| |j1] [| |j2] [| |j3]; simpl; first [done|apply transitivity].
Qed.

#[export] Instance same_answer_equivalence : Equivalence same_answer.
Proof.
  split.
  - intros [r|e]; simpl; [reflexivity|done].
  - intros [r1|e1] [r2|e2]; simpl; first [done|apply symmetry].
  - intros [r1|e1] [r2|e2] [r3|e3]; simpl;
      first [done|congruence|apply transitivity].
Qed.

#[export] Instance alike_equivalence : Equivalence alike.
Proof.
  unfold alike. split.
  - intros net. reflexivity.
  - intros net1 net2. apply symmetry.
  - intros net1 net2 net3. apply transitivity.
Qed.

#[export] Instance same_input_equivalence : Equivalence same_input.
Proof.
  split.
  - intros [n|i net|]; by constructor.
  - intros i1 i2 [n|i net1 net2 H|]; by constructor.
  - intros i1 i2 i3 [n|i net1 net2 Hnet|] H23; [done| |done].
    inversion_clear H23. constructor. by etrans.
Qed.

(** ** The program respects them *)

(** An object decodes to an entry by its fields alone. *)
Lemma Entry_deserialize_fields (ms1 ms2 : list (string * json)) (e : Entry) :
  fields ms1 ≡ₚ fields ms2 ->
  Entry_deserialize (JObject ms1) = Ok e -> Entry_deserialize (JObject ms2) = Ok e.
Proof.
  intros Hp. rewrite <- (Entry_deserialize_ignores_unknown ms1),
    <- (Entry_deserialize_ignores_unknown ms2).
  by apply Entry_deserialize_Permutation.
Qed.

#[export] Instance decode_body_proper :
  Proper (same_body ==> eq) (decode_body Entry_deserialize).
Proof.
  intros [| |j1] [| |j2] Hb; simpl in Hb; try done. simpl.
  destruct Hb as [ms1 ms2 Hp|j]; [|done].
  destruct (Entry_deserialize (JObject ms1)) as [e1|err1] eqn:H1.
  { by rewrite (Entry_deserialize_fields _ _ _ Hp H1). }
  destruct (Entry_deserialize (JObject ms2)) as [e2|err2] eqn:H2; [|done].
  symmetry in Hp. by rewrite (Entry_deserialize_fields _ _ _ Hp H2) in H1.
Qed.

#[export] Instance fetch_entry_proper : Proper (alike ==> eq) fetch_entry.
Proof.
  intros net1 net2 Hnet. unfold fetch_entry, reqwest_get, Response_json.
  unfold alike in Hnet.
  destruct (net1 url) as [r1|e1], (net2 url) as [r2|e2]; simpl in *;
    try done; [by rewrite Hnet|congruence].
Qed.

#[export] Instance Quote_search_proper : Proper (alike ==> eq) Quote_search.
Proof. intros net1 net2 Hnet. unfold Quote_search. by rewrite Hnet. Qed.

#[export] Instance handle_proper : Proper (same_input ==> eq ==> eq) handle.
Proof.
  intros i1 i2 [n|i net1 net2 Hnet|] rt _ <-; [done| |done].
  rewrite !handle_Done. destruct (pending rt !! i) as [[T future f]|]; [|done].
  destruct future. simpl. by rewrite Hnet.
Qed.

#[export] Instance run_handle_proper :
  Proper (Forall2 same_input ==> eq ==> eq) (run handle).
Proof.
  intros ins1 ins2 Hins. induction Hins as [|i1 i2 ins1 ins2 Hi _ IH];
    intros rt _ <-; [done|].
  simpl. rewrite Hi. destruct (handle i2 rt) as [rt'|]; [|done]. by apply IH.
Qed.

(** ** Theorems *)

(** C25: the program cannot tell networks apart that are alike.  Two
    runs of the run loop whose inputs differ only in the networks of
    their completions, and whose networks differ only in the status
    code of the response, in the order of the members of the object
    and in the members that name no field of [Entry], end in the same
    state, with the same title, screen and standard error, or are
    refused together. *)
Theorem run_alike (inputs1 inputs2 : list QuotesInput) (rt : QuotesRuntime) :
  Forall2 same_input inputs1 inputs2 ->
  run handle inputs1 rt = run handle inputs2 rt.
Proof. intros Hinputs. by rewrite Hinputs. Qed.

Lemma run_alike_witness :
  run handle [completes plain_answer; redraws; clicks; completes odd_answer] main
  = run handle [completes odd_answer; redraws; clicks; completes plain_answer] main.
Proof.
  apply run_alike. repeat constructor.
Defined.
