(* ===== verification/Accounting.v ===== *)
(** The account of fetches along the runs of the program: how many
    were started, how many completed, how many failed, against the
    clicks of the user and the lines on standard error. *)

From stdpp Require Import prelude strings.
From S2P Require Import Prelude Iced Quote Serde Fetcher App Runtime Main.

Local Open Scope string_scope.
Local Open Scope list_scope.

(** ** Counts *)

(** A completion whose fetch fails. *)
Definition fails (input : QuotesInput) : bool :=
  match input with
  | Done _ net => negb (is_ok (Quote_search net).1)
  | _ => false
  end.

(** The failed fetches among the inputs. *)
Definition failed (inputs : list QuotesInput) : nat :=
  length (filter fails inputs).

(** The fetches started since the process began: the one of [new] and
    those of the run. *)
Definition fetches (inputs : list QuotesInput) : nat :=
  length (new ()).2 + started inputs main.

(** ** Lemmas *)

Lemma failed_cons input inputs :
  failed (input :: inputs) = (if fails input then 1 else 0) + failed inputs.
Proof. unfold failed. rewrite filter_cons. by destruct (fails input). Qed.

(** The counts of [Runtime] at the inputs of the program. *)
Lemma counts_cons (input : QuotesInput) (inputs : list QuotesInput) :
  completed (input :: inputs) = (if is_Done input then 1 else 0) + completed inputs
  /\ clicked (input :: inputs) = (if is_Press input then 1 else 0) + clicked inputs.
Proof. split; [exact (completed_cons input inputs)|exact (clicked_cons input inputs)]. Qed.

Lemma failed_le_completed inputs : failed inputs <= completed inputs.
Proof.
  induction inputs as [|input inputs IH]; [done|].
  rewrite failed_cons, (proj1 (counts_cons input inputs)).
  destruct input as [n|i net|]; simpl; try lia. destruct (negb _); lia.
Qed.

(** The lines of a fetch: none when it succeeds, one when it fails. *)
Lemma Quote_search_lines_length (net : Network) :
  length (Quote_search net).2 = if is_ok (Quote_search net).1 then 0 else 1.
Proof. by destruct (Quote_search_lines net) as [[q ->]|[error ->]]. Qed.

(** What a completion is in a coherent state: the completion of the
    one fetch in flight, delivered to [update] as [QuoteFound]. *)
Lemma handle_Done_coherent (i : nat) (net : Network) (rt rt' : QuotesRuntime) :
  coherent rt -> handle (Done i net) rt = Some rt' ->
  pending rt !! i = Some search_action
  /\ stderr rt' = stderr rt ++ (Quote_search net).2.
Proof.
  intros Hc. rewrite handle_Done. intros (a & Ha & ->)%fmap_Some.
  rewrite dispatch_stderr. simpl. pose proof Ha as Ha'.
  rewrite (coh_pending _ Hc) in Ha'.
  destruct (is_loading (state rt)), i as [|i]; simplify_eq/=.
  split; [done|]. by destruct (Quote_search net).
Qed.

(** In a coherent state a click starts at most one fetch and nothing
    else starts any. *)
Lemma starts_coherent (input : QuotesInput) (rt rt' : QuotesRuntime) :
  coherent rt -> handle input rt = Some rt' ->
  starts input rt <= (if is_Press input then 1 else 0).
Proof.
  intros Hc Hh. unfold starts. destruct input as [n|i net|]; simpl; [| |done].
  - destruct (on_presses (screen rt) !! n) as [m|]; simpl; [|lia].
    unfold_app. by destruct m as [[q|e]|], (state rt); simpl; lia.
  - apply handle_Done_coherent in Hh as [-> _]; [|done]. simpl.
    unfold_app. by destruct (Quote_search net) as [[q|e] out].
Qed.

Lemma handle_stderr_length (input : QuotesInput) (rt rt' : QuotesRuntime) :
  coherent rt -> handle input rt = Some rt' ->
  length (stderr rt') = length (stderr rt) + (if fails input then 1 else 0).
Proof.
  intros Hc Hh. destruct input as [n|i net|].
  - rewrite handle_Press in Hh. apply fmap_Some in Hh as (m & _ & ->).
    rewrite dispatch_stderr. simpl. lia.
  - apply handle_Done_coherent in Hh as [_ ->]; [|done].
    rewrite length_app, Quote_search_lines_length. simpl.
    destruct (is_ok _); simpl; lia.
  - injection Hh as <-. simpl. lia.
Qed.

(** Along a run from a coherent state: the fetches started are at
    most the clicks, and each failed fetch added one line. *)
Lemma run_account (inputs : list QuotesInput) (rt rt' : QuotesRuntime) :
  coherent rt -> run handle inputs rt = Some rt' ->
  started inputs rt <= clicked inputs
  /\ length (stderr rt') = length (stderr rt) + failed inputs.
Proof.
  revert rt. induction inputs as [|input inputs IH]; intros rt Hc Hrun.
  - injection Hrun as <-. split; [done|]. unfold failed. simpl. lia.
  - cbn [run started] in *.
    destruct (handle input rt) as [rt1|] eqn:Hh; [|done].
    cbn [mbind option_bind from_option] in *.
    rewrite (proj2 (counts_cons input inputs)), failed_cons.
    destruct (IH rt1) as [Hs ->]; [by eapply handle_coherent|done|].
    rewrite (handle_stderr_length _ _ _ Hc Hh). split; [|lia].
    apply Nat.add_le_mono; [by eapply starts_coherent|done].
Qed.

(** ** Theorems *)

(** C15: the account of fetches of the running program.  After any run
    of inputs from the start, the fetches started are those completed
    and the one in flight when the state is [Loading]; so the
    completions never exceed the fetches and the fetches exceed them
    by one at the most; the fetches are at most one more than the
    clicks; and standard error holds exactly one line per failed
    fetch, at most one per completion. *)
Theorem fetches_bounds (inputs : list QuotesInput) (rt : QuotesRuntime) :
  run handle inputs main = Some rt ->
  fetches inputs = completed inputs + in_flight (state rt)
  /\ completed inputs <= fetches inputs <= completed inputs + 1
  /\ fetches inputs <= 1 + clicked inputs
  /\ length (stderr rt) = failed inputs
  /\ failed inputs <= completed inputs.
Proof.
  intros Hrun. pose proof (started_conservation _ _ _ Hrun) as Hcons.
  pose proof (run_coherent _ _ _ main_coherent Hrun) as Hc.
  destruct (run_account _ _ _ main_coherent Hrun) as [Hclicks Herr].
  pose proof (failed_le_completed inputs).
  rewrite (coh_pending _ Hc) in Hcons. unfold fetches, in_flight.
  simpl in *. destruct (is_loading (state rt)); simpl in *; lia.
Qed.

Lemma fetches_bounds_witness :
  let inputs := [completes (failing Request); redraws; clicks] in
  fetches inputs = completed inputs + in_flight (state retrying)
  /\ completed inputs <= fetches inputs <= completed inputs + 1
  /\ fetches inputs <= 1 + clicked inputs
  /\ length (stderr retrying) = failed inputs
  /\ failed inputs <= completed inputs.
Proof.
  apply (fetches_bounds [completes (failing Request); redraws; clicks] retrying).
  reflexivity.
Defined.
