(* ===== verification/History.v ===== *)
(** What a run of the program leaves behind, told from its inputs:
    standard error holds the causes of the failed fetches, in the
    order the fetches completed, and nothing else; and the result the
    application state holds is the result of the last completion,
    after which the window was only redrawn. *)

From stdpp Require Import prelude strings.
From S2P Require Import Prelude Iced Quote Serde Fetcher App Runtime Main.

Local Open Scope string_scope.
Local Open Scope list_scope.

(** ** Histories *)

(** The error a completion logs: the one its fetch fails with. *)
Definition cause (input : QuotesInput) : option reqwest_Error :=
  match input with
  | Done _ net =>
      match fetch_entry net with
      | Ok _ => None
      | Err error => Some error
      end
  | _ => None
  end.

(** The errors of the failed fetches among the inputs, oldest first. *)
Definition causes (inputs : list QuotesInput) : list reqwest_Error :=
  omap cause inputs.

(** The result of a fetch a state holds, if it holds one. *)
Definition outcome (s : Quotes) : option (result Quote Error) :=
  match s with
  | Loading => None
  | Loaded quote => Some (Ok quote)
  | Errored => Some (Err APIError)
  end.

(** The inputs end with the completion of a fetch against [net] and
    redraws of the window. *)
Definition completed_last (net : Network) (inputs : list QuotesInput) : Prop :=
  exists before i after,
    inputs = before ++ Done i net :: after /\ Forall (eq Redraw) after.

(** ** Lemmas *)

Lemma causes_app inputs1 inputs2 :
  causes (inputs1 ++ inputs2) = causes inputs1 ++ causes inputs2.
Proof. apply omap_app. Qed.

(** The lines of a completion, whatever wraps the output. *)
Lemma complete_lines (a : Action Future Message) (net : Network) :
  (complete a net).2 = error_lines (option_list (cause (Done 0 net))).
Proof.
  destruct a as [T future f]. destruct future.
  rewrite complete_SearchFuture, Quote_search_unfold. simpl.
  by destruct (fetch_entry net).
Qed.

(** One input adds the line of its cause to standard error. *)
Lemma handle_stderr (input : QuotesInput) (rt rt' : QuotesRuntime) :
  handle input rt = Some rt' ->
  stderr rt' = stderr rt ++ error_lines (option_list (cause input)).
Proof.
  destruct input as [n|i net|].
  - rewrite handle_Press. intros (m & _ & ->)%fmap_Some.
    by rewrite dispatch_stderr, app_nil_r.
  - rewrite handle_Done. intros (a & _ & ->)%fmap_Some.
    rewrite dispatch_stderr. simpl. by rewrite complete_lines.
  - intros [= <-]. simpl. by rewrite app_nil_r.
Qed.

Lemma run_stderr (inputs : list QuotesInput) (rt rt' : QuotesRuntime) :
  run handle inputs rt = Some rt' ->
  stderr rt' = stderr rt ++ error_lines (causes inputs).
Proof.
  revert rt. induction inputs as [|input inputs IH]; intros rt; simpl.
  - intros [= <-]. by rewrite app_nil_r.
  - destruct (handle input rt) as [rt1|] eqn:Hh; [|done]. simpl.
    intros Hrun. rewrite (IH _ Hrun), (handle_stderr _ _ _ Hh).
    unfold causes, error_lines. simpl.
    destruct (cause input); simpl; by rewrite <- ?(assoc_L (++)).
Qed.

Lemma completed_last_Redraw net inputs :
  completed_last net inputs -> completed_last net (inputs ++ [Redraw]).
Proof.
  intros (before & i & after & -> & Hafter).
  exists before, i, (after ++ [Redraw]). split.
  - by rewrite <- (assoc_L (++)).
  - apply Forall_app. split; [done|]. by repeat constructor.
Qed.

(** What one input makes of the result the state holds, in a
    coherent state: a completion leaves the result of its fetch, a
    click leaves none, a redraw changes nothing. *)
Lemma handle_outcome (input : QuotesInput) (rt rt' : QuotesRuntime) :
  coherent rt -> handle input rt = Some rt' ->
  outcome (state rt') =
  match input with
  | Press _ => None
  | Done _ net => Some (Quote_search net).1
  | Redraw => outcome (state rt)
  end.
Proof.
  intros Hc. destruct input as [n|i net|].
  - rewrite handle_Press. intros (m & Hm & ->)%fmap_Some.
    rewrite (coherent_on_presses _ _ _ Hc Hm), dispatch_state.
    unfold_app. by destruct (state rt).
  - rewrite handle_Done. intros (a & Ha & ->)%fmap_Some.
    rewrite (coh_pending _ Hc) in Ha.
    destruct (is_loading (state rt)), i; simplify_eq/=.
    rewrite dispatch_state. unfold_app. simpl.
    by destruct (Quote_search net) as [[q|[]] out].
  - by intros [= <-].
Qed.

(** ** Theorems *)

(** C22: standard error is the log of the failed fetches.  After any
    run of inputs from the start it holds one line for each
    completion whose fetch failed, in the order of the completions,
    each line the reqwest error the fetch failed with; clicks,
    redraws and successful fetches write nothing. *)
Theorem stderr_history (inputs : list QuotesInput) (rt : QuotesRuntime) :
  run handle inputs main = Some rt -> stderr rt = error_lines (causes inputs).
Proof. intros Hrun. by rewrite (run_stderr _ _ _ Hrun). Qed.

Lemma stderr_history_witness :
  stderr retrying = error_lines (causes (fail_and_retry Request)).
Proof. apply (stderr_history (fail_and_retry Request) retrying). reflexivity. Defined.

(** C9: the result in the state is the latest.  When the application
    state after a run of inputs from the start is a quote or the
    error, the inputs end with the completion of a fetch that gave
    that very result, followed by redraws only: the state never holds
    an earlier result or the result of another fetch, and a click
    withdraws the result from the state at once.  (The window shows
    the state after the next redraw.) *)
Theorem shown_is_latest (inputs : list QuotesInput) (rt : QuotesRuntime)
    (r : result Quote Error) :
  run handle inputs main = Some rt -> outcome (state rt) = Some r ->
  exists net, (Quote_search net).1 = r /\ completed_last net inputs.
Proof.
  revert rt. induction inputs as [|input inputs IH] using rev_ind; intros rt.
  { by intros [= <-]. }
  rewrite run_snoc. destruct (run handle inputs main) as [rt1|] eqn:Hrun; [|done].
  simpl. intros Hh. pose proof (run_coherent _ _ _ main_coherent Hrun) as Hc.
  rewrite (handle_outcome _ _ _ Hc Hh). destruct input as [n|i net|]; [done| |].
  - intros [= <-]. exists net. split; [done|]. by exists inputs, i, [].
  - intros (net & Hnet & Hlast)%(IH rt1 eq_refl).
    exists net. split; [done|]. by apply completed_last_Redraw.
Qed.

Lemma shown_is_latest_witness :
  exists net,
    (Quote_search net).1 = Ok wilde
    /\ completed_last net [completes (answering (quote_response wilde)); redraws].
Proof.
  apply (shown_is_latest [completes (answering (quote_response wilde)); redraws]
           {| state := Loaded wilde; pending := [];
              window_title := title (Loaded wilde); screen := view (Loaded wilde);
              stderr := [] |}); reflexivity.
Defined.
