(* ===== verification/Program.v ===== *)
(** The whole program as one interaction tree: [main], that is
    [Quotes::run(Settings::default())], as the toolkit's loop around
    [new], [update], [title] and [view] of [App], with the fetcher of
    [Async] run when a fetch completes.  The events of the tree are
    what the process asks of the window system and of the network.
    The tree is run against a script of the inputs of [Runtime] and
    does what the step function [handle] does. *)

From stdpp Require Import prelude strings.
From ITree Require Import ITree ITreeFacts Events.State Events.StateFacts.
From S2P Require Import Prelude Iced Quote Serde Fetcher Trees Async App Runtime Main Accounting.

Local Open Scope string_scope.
Local Open Scope list_scope.
Local Open Scope async_scope.

(** ** Events *)

(** What the window system reports to the loop. *)
Inductive Occurrence : Type :=
| Clicked (n : nat)
| Completed (i : nat)
| Refreshed
| CloseRequested.

(** What the loop asks of the window system. *)
Variant windowE : Type -> Type :=
| Next : windowE Occurrence
| SetTitle (title : string) : windowE unit
| Draw (tree : Element Message) : windowE unit.

Definition programE : Type -> Type := windowE +' fetchE.

(** ** The loop *)

(** What the loop holds between two occurrences: the application
    state, the futures in flight and the widget tree it last built. *)
Record Held : Type := mkHeld {
  held_state : Quotes;
  held_pending : list (Action Future Message);
  held_screen : Element Message
}.

(** The code a future runs. *)
Definition spawn {T : Type} (future : Future T) : itree fetchE T :=
  match future with
  | SearchFuture => search_async
  end.

(** A future in flight is awaited and its output wrapped. *)
Definition join (a : Action Future Message) : itree programE Message :=
  match a with
  | Perform future f =>
      await output := translate inr1 (spawn future) in Ret (f output)
  end.

(** One message through [update], its command spawned. *)
Definition deliver (message : Message) (h : Held) : Held :=
  let '(s, command) := update (held_state h) message in
  {| held_state := s; held_pending := held_pending h ++ command;
     held_screen := held_screen h |}.

(** [title] and [view] are called and their results shown. *)
Definition present (h : Held) : itree programE Held :=
  await _ := ITree.trigger (inl1 (SetTitle (title (held_state h)))) in
  await _ := ITree.trigger (inl1 (Draw (view (held_state h)))) in
  Ret {| held_state := held_state h; held_pending := held_pending h;
         held_screen := view (held_state h) |}.

(** What the loop does about an occurrence: a click off every button
    and the completion of no future do nothing; a close request ends
    the loop with [Ok(())] when the settings say so. *)
Definition react (settings : Settings) (h : Held) (occurrence : Occurrence)
    : itree programE (Held + iced_Result) :=
  match occurrence with
  | Clicked n =>
      match on_presses (held_screen h) !! n with
      | Some message => Ret (inl (deliver message h))
      | None => Ret (inl h)
      end
  | Completed i =>
      match held_pending h !! i with
      | Some a =>
          await message := join a in
          Ret (inl (deliver message
                      {| held_state := held_state h;
                         held_pending := delete i (held_pending h);
                         held_screen := held_screen h |}))
      | None => Ret (inl h)
      end
  | Refreshed => await h' := present h in Ret (inl h')
  | CloseRequested =>
      if exit_on_close_request settings then Ret (inr (Ok tt)) else Ret (inl h)
  end.

(** One turn of the loop: what happened is asked for and handled. *)
Definition iteration (settings : Settings) (h : Held)
    : itree programE (Held + iced_Result) :=
  await occurrence := ITree.trigger (inl1 Next) in
  react settings h occurrence.

(** [Quotes::run(settings)]: [new] is called, its command spawned,
    the first title and tree shown, and the loop entered. *)
Definition run_async (settings : Settings) : itree programE iced_Result :=
  let '(s, command) := new () in
  await h := present {| held_state := s; held_pending := command;
                        held_screen := view s |} in
  ITree.iter (iteration settings) h.

(** [pub fn main() -> iced::Result] *)
Definition main_async : itree programE iced_Result :=
  run_async Settings_default.

(** ** The desktop *)

(** The world the program runs in: the inputs still to come, the
    network of the moment with what the process did to the outside,
    and what the window shows. *)
Record Desktop : Type := mkDesktop {
  script : list QuotesInput;
  outside : Outside;
  title_bar : string;
  drawn : option (Element Message)
}.

Definition occurrence_of (input : QuotesInput) : Occurrence :=
  match input with
  | Press n => Clicked n
  | Done i _ => Completed i
  | Redraw => Refreshed
  end.

(** The network is the one of the latest completion. *)
Definition arrive (input : QuotesInput) (w : Outside) : Outside :=
  match input with
  | Done _ net => (net, w.2)
  | _ => w
  end.

Definition perform_window (X : Type) (e : windowE X) (d : Desktop) : Desktop * X :=
  match e in windowE X return Desktop * X with
  | Next =>
      match script d with
      | [] => (d, CloseRequested)
      | input :: rest =>
          ({| script := rest; outside := arrive input (outside d);
              title_bar := title_bar d; drawn := drawn d |},
           occurrence_of input)
      end
  | SetTitle t =>
      ({| script := script d; outside := outside d;
          title_bar := t; drawn := drawn d |}, tt)
  | Draw tree =>
      ({| script := script d; outside := outside d;
          title_bar := title_bar d; drawn := Some tree |}, tt)
  end.

Definition with_outside (w : Outside) (d : Desktop) : Desktop :=
  {| script := script d; outside := w;
     title_bar := title_bar d; drawn := drawn d |}.

Definition perform_program (X : Type) (e : programE X) (d : Desktop) : Desktop * X :=
  match e with
  | inl1 e => perform_window X e d
  | inr1 e => let '(w, x) := perform X e (outside d) in (with_outside w d, x)
  end.

(** ** The correspondence with the step function *)

Definition held_of (rt : QuotesRuntime) : Held :=
  {| held_state := state rt; held_pending := pending rt;
     held_screen := screen rt |}.

Definition desktop_of (rt : QuotesRuntime) (inputs : list QuotesInput)
    (w : Outside) : Desktop :=
  {| script := inputs; outside := w;
     title_bar := window_title rt; drawn := Some (screen rt) |}.

(** What the process does to the outside for a run of inputs: one
    fetch for every completion, against the network of the
    completion. *)
Definition outside_after (inputs : list QuotesInput) (w : Outside) : Outside :=
  foldl (fun w input =>
           match input with
           | Done _ net => (net, w.2 ++ search_effects net)
           | _ => w
           end) w inputs.

(** One input on the state of the step function and the outside: an
    input that [handle] refuses changes nothing but the network of
    the moment. *)
Definition turn (input : QuotesInput) (s : QuotesRuntime * Outside)
    : QuotesRuntime * Outside :=
  match handle input s.1 with
  | Some rt' => (rt', outside_after [input] s.2)
  | None => (s.1, arrive input s.2)
  end.

(** A script of inputs, whatever they are. *)
Definition play (inputs : list QuotesInput) (s : QuotesRuntime * Outside)
    : QuotesRuntime * Outside :=
  foldl (fun s input => turn input s) s inputs.

(** The desktop the program starts on. *)
Definition desktop (inputs : list QuotesInput) (net : Network) : Desktop :=
  {| script := inputs; outside := (net, []); title_bar := ""; drawn := None |}.

(** The desktop the program leaves. *)
Definition closed (s : QuotesRuntime * Outside) : Desktop :=
  desktop_of s.1 [] s.2.

(** The steps that are enough for a script. *)
Definition fuel_for (inputs : list QuotesInput) : nat := 8 * length inputs + 5.

(** ** Lemmas *)

Lemma with_outside_id (d : Desktop) : with_outside (outside d) d = d.
Proof. by destruct d. Qed.

(** The tree of a future inside the program: its events go to the
    outside of the desktop. *)
Lemma exec_spawn {A B} (n m : nat) (t : itree fetchE A)
    (k : A -> itree programE B) d w a r :
  exec perform n t (outside d) = Some (w, a) ->
  exec perform_program m (k a) (with_outside w d) = Some r ->
  exec perform_program (n + m) (await x := translate inr1 t in k x) d = Some r.
Proof.
  revert t d. induction n as [|n IH]; intros t d Ht Hk; [done|].
  change (S n + m) with (S (n + m)). rewrite exec_bind.
  rewrite (observing_observe (unfold_translate_ _ t)).
  rewrite exec_S in Ht. destruct (observe t) as [a'|t'|X e ke]; cbn.
  - injection Ht as <- <-. rewrite with_outside_id in Hk.
    apply (exec_more _ m); [lia|done].
  - by apply IH.
  - destruct (perform X e (outside d)) as [w1 x]. by apply IH.
Qed.

Lemma deliver_held (message : Message) (rt : QuotesRuntime) :
  deliver message (held_of rt) = held_of (dispatch message rt).
Proof.
  unfold deliver, dispatch, held_of. unfold_app. simpl.
  by destruct (update (state rt) message).
Qed.

Lemma desktop_of_dispatch message rt inputs w :
  desktop_of (dispatch message rt) inputs w = desktop_of rt inputs w.
Proof. unfold desktop_of. by rewrite dispatch_window_title, dispatch_screen. Qed.

(** A future joined on a desktop: the fetch runs against the network
    of the moment. *)
Lemma join_exec (a : Action Future Message) (d : Desktop) :
  exec perform_program 5 (join a) d
  = Some (with_outside ((outside d).1, (outside d).2 ++ search_effects (outside d).1) d,
          (complete a (outside d).1).1).
Proof.
  destruct a as [T future f], d as [inputs [net done] shown tree].
  destruct future. rewrite complete_SearchFuture. unfold join, spawn.
  apply (exec_spawn 4 1 search_async _ (mkDesktop inputs (net, done) shown tree)
           _ _ _ (search_async_exec net done)).
  by rewrite exec_Ret.
Qed.

Lemma present_exec (h : Held) (d : Desktop) :
  exec perform_program 3 (present h) d
  = Some ({| script := script d; outside := outside d;
             title_bar := title (held_state h);
             drawn := Some (view (held_state h)) |},
          {| held_state := held_state h; held_pending := held_pending h;
             held_screen := view (held_state h) |}).
Proof. unfold present. by exec_steps. Qed.

(** Reacting to an input is one [turn]. *)
Lemma react_exec settings (input : QuotesInput) inputs (rt : QuotesRuntime) w :
  exec perform_program 6 (react settings (held_of rt) (occurrence_of input))
    (desktop_of rt inputs (arrive input w))
  = Some (desktop_of (turn input (rt, w)).1 inputs (turn input (rt, w)).2,
          inl (held_of (turn input (rt, w)).1)).
Proof.
  unfold turn, react. cbn [fst snd].
  destruct input as [n|i net|]; cbn [occurrence_of arrive held_of held_screen
    held_pending held_state].
  - rewrite handle_Press. destruct (on_presses (screen rt) !! n) as [m|];
      cbn [fmap option_fmap option_map fst snd outside_after foldl];
      rewrite exec_Ret; [|done].
    by rewrite desktop_of_dispatch, deliver_held.
  - rewrite handle_Done. destruct (pending rt !! i) as [a|];
      cbn [fmap option_fmap option_map fst snd outside_after foldl];
      [|by rewrite exec_Ret].
    rewrite desktop_of_dispatch, <- deliver_held.
    eapply (exec_bind_Some _ 5 1); [apply join_exec|]. by rewrite exec_Ret.
  - apply (exec_more _ (3 + 1)); [lia|].
    eapply (exec_bind_Some _ 3 1); [apply present_exec|]. by rewrite exec_Ret.
Qed.

(** One turn of the loop body is one [turn]. *)
Lemma iteration_exec settings (input : QuotesInput) inputs (rt : QuotesRuntime) w :
  exec perform_program 7 (iteration settings (held_of rt))
    (desktop_of rt (input :: inputs) w)
  = Some (desktop_of (turn input (rt, w)).1 inputs (turn input (rt, w)).2,
          inl (held_of (turn input (rt, w)).1)).
Proof.
  unfold iteration. rewrite exec_await. apply react_exec.
Qed.

(** One turn of the loop, then the rest. *)
Lemma iter_turn settings (input : QuotesInput) inputs (rt : QuotesRuntime) w fuel r :
  exec perform_program fuel
    (ITree.iter (iteration settings) (held_of (turn input (rt, w)).1))
    (desktop_of (turn input (rt, w)).1 inputs (turn input (rt, w)).2) = Some r ->
  exec perform_program (8 + fuel) (ITree.iter (iteration settings) (held_of rt))
    (desktop_of rt (input :: inputs) w) = Some r.
Proof.
  intros Hrest. rewrite exec_iter.
  eapply (exec_bind_Some _ 7 (S fuel)); [by apply iteration_exec|].
  cbn beta iota. by rewrite exec_Tau.
Qed.

(** With the default settings a close request ends the loop. *)
Lemma iter_close (rt : QuotesRuntime) w :
  exec perform_program 2 (ITree.iter (iteration Settings_default) (held_of rt))
    (desktop_of rt [] w)
  = Some (desktop_of rt [] w, Ok tt).
Proof. rewrite exec_iter. unfold iteration, react. by exec_steps. Qed.

(** The loop on a script plays it and ends. *)
Lemma iter_play (inputs : list QuotesInput) (rt : QuotesRuntime) w :
  exec perform_program (8 * length inputs + 2)
    (ITree.iter (iteration Settings_default) (held_of rt)) (desktop_of rt inputs w)
  = Some (closed (play inputs (rt, w)), Ok tt).
Proof.
  revert rt w. induction inputs as [|input inputs IH]; intros rt w.
  - apply iter_close.
  - replace (8 * length (input :: inputs) + 2)
      with (8 + (8 * length inputs + 2)) by (simpl; lia).
    apply iter_turn. cbn [play foldl].
    destruct (turn input (rt, w)) as [rt1 w1]. apply IH.
Qed.

(** The program on a script. *)
Lemma main_async_exec (inputs : list QuotesInput) (net : Network) :
  exec perform_program (fuel_for inputs) main_async (desktop inputs net)
  = Some (closed (play inputs (main, (net, []))), Ok tt).
Proof.
  unfold main_async, fuel_for.
  replace (8 * length inputs + 5) with (3 + (8 * length inputs + 2)) by lia.
  eapply exec_bind_Some; [apply present_exec|]. apply (iter_play inputs main).
Qed.

Lemma outside_after_cons input inputs w :
  outside_after (input :: inputs) w = outside_after inputs (outside_after [input] w).
Proof. done. Qed.

(** On a script that [handle] accepts, [play] is [run]. *)
Lemma play_run (inputs : list QuotesInput) (rt rt' : QuotesRuntime) w :
  run handle inputs rt = Some rt' ->
  play inputs (rt, w) = (rt', outside_after inputs w).
Proof.
  revert rt w. induction inputs as [|input inputs IH]; intros rt w Hrun.
  - by injection Hrun as <-.
  - cbn [run] in Hrun. destruct (handle input rt) as [rt1|] eqn:Hh; [|done].
    cbn [mbind option_bind] in Hrun. rewrite outside_after_cons.
    cbn [play foldl]. unfold turn at 2. cbn [fst snd]. rewrite Hh. by apply IH.
Qed.

(** Along [play] the lines written are the lines of the step
    function. *)
Lemma turn_lines (input : QuotesInput) (rt : QuotesRuntime) w :
  lines w.2 = stderr rt ->
  lines (turn input (rt, w)).2.2 = stderr (turn input (rt, w)).1.
Proof.
  intros Hw. unfold turn. cbn [fst snd]. destruct input as [n|i net|].
  - rewrite handle_Press. destruct (on_presses (screen rt) !! n) as [m|]; [|done].
    cbn. by rewrite dispatch_stderr.
  - rewrite handle_Done. destruct (pending rt !! i) as [[T future f]|]; [|done].
    destruct future. cbn [fmap option_fmap option_map fst snd].
    rewrite dispatch_stderr, complete_SearchFuture. cbn.
    rewrite lines_app, Hw. f_equal. apply search_effects_shape.
  - done.
Qed.

Lemma play_lines (inputs : list QuotesInput) (rt : QuotesRuntime) w :
  lines w.2 = stderr rt ->
  lines (play inputs (rt, w)).2.2 = stderr (play inputs (rt, w)).1.
Proof.
  revert rt w. induction inputs as [|input inputs IH]; intros rt w Hw; [done|].
  cbn [play foldl]. pose proof (turn_lines input rt w Hw) as Ht.
  destruct (turn input (rt, w)) as [rt1 w1]. by apply IH.
Qed.

(** One request to the fixed URL for every completion. *)
Lemma outside_after_requests (inputs : list QuotesInput) w :
  requests (outside_after inputs w).2
  = requests w.2 ++ replicate (completed inputs) url.
Proof.
  revert w. induction inputs as [|input inputs IH]; intros w.
  - unfold completed. simpl. by rewrite (right_id_L [] (++)).
  - rewrite outside_after_cons, IH, (proj1 (counts_cons input inputs)).
    destruct input as [n|i net|]; cbn; [done| |done].
    rewrite requests_app, <- (assoc_L (++)). f_equal.
    by destruct (search_effects_shape net) as [-> _].
Qed.

(** The desktop the program leaves on a script that [handle]
    accepts. *)
Lemma closed_play_run (inputs : list QuotesInput) (net : Network) (rt : QuotesRuntime) :
  run handle inputs main = Some rt ->
  closed (play inputs (main, (net, [])))
  = desktop_of rt [] (outside_after inputs (net, []))
  /\ lines (outside_after inputs (net, [])).2 = stderr rt.
Proof.
  intros Hrun. pose proof (play_lines inputs main (net, []) eq_refl) as Hlines.
  pose proof (play_run inputs main rt (net, []) Hrun) as Hplay.
  split; [exact (f_equal closed Hplay)|].
  exact (eq_ind _ (fun s : QuotesRuntime * Outside => lines s.2.2 = stderr s.1)
           Hlines _ Hplay).
Qed.



(** ** Theorems *)

(** C17: the program returns.  On every script of inputs, accepted by
    [handle] or not, run for eight steps per input and five more, the
    tree of [main] returns [Ok(())] when the script is exhausted and
    the window closed, on the desktop that playing the script
    leaves. *)
Theorem main_async_returns (inputs : list QuotesInput) (net : Network) (fuel : nat) :
  fuel_for inputs <= fuel ->
  exec perform_program fuel main_async (desktop inputs net)
  = Some (closed (play inputs (main, (net, []))), Ok tt).
Proof. intros Hfuel. by apply (exec_more _ (fuel_for inputs)), main_async_exec. Qed.

Lemma main_async_returns_witness :
  exec perform_program 29 main_async
    (desktop [completes (failing Request); redraws; clicks] (failing Decode))
  = Some (closed (play [completes (failing Request); redraws; clicks]
                       (main, (failing Decode, []))), Ok tt).
Proof.
  apply (main_async_returns [completes (failing Request); redraws; clicks]).
  vm_compute. lia.
Defined.

(** C11: the program does what the step function does.  When [handle]
    accepts a script from the start of the program and leaves the
    state [rt], every run of the tree of [main] on that script that
    returns has returned [Ok(())] with the script consumed, the title
    bar and the window showing the title and the tree of [rt], the
    lines written being standard error of [rt], and one request made
    to the fixed URL for every completion of the script. *)
Theorem main_async_refines (inputs : list QuotesInput) (net : Network)
    (rt : QuotesRuntime) (fuel : nat) (d : Desktop) (r : iced_Result) :
  run handle inputs main = Some rt ->
  exec perform_program fuel main_async (desktop inputs net) = Some (d, r) ->
  r = Ok tt /\ script d = []
  /\ title_bar d = window_title rt /\ drawn d = Some (screen rt)
  /\ lines (outside d).2 = stderr rt
  /\ requests (outside d).2 = replicate (completed inputs) url.
Proof.
  intros Hrun Hexec.
  pose proof (exec_agree _ _ _ _ _ _ _ Hexec (main_async_exec inputs net)) as [= -> ->].
  destruct (closed_play_run inputs net rt Hrun) as [-> Hlines].
  split_and!; [done..|]. apply (outside_after_requests inputs (net, [])).
Qed.

Lemma main_async_refines_witness :
  let d := closed (play [completes (failing Request); redraws; clicks]
                        (main, (failing Decode, []))) in
  (Ok tt : iced_Result) = Ok tt /\ script d = []
  /\ title_bar d = window_title retrying /\ drawn d = Some (screen retrying)
  /\ lines (outside d).2 = stderr retrying
  /\ requests (outside d).2
     = replicate (completed [completes (failing Request); redraws; clicks]) url.
Proof.
  apply (main_async_refines [completes (failing Request); redraws; clicks]
           (failing Decode) retrying 29); reflexivity.
Defined.

(** Interpreted by the interpreter of the ITree library with the
    desktop as state, the tree of [main] on a script is the
    computation that returns [Ok(())] on the desktop that playing the
    script leaves: the program does not diverge on a finite script. *)
Theorem main_async_interp (inputs : list QuotesInput) (net : Network) :
  interp_state (handler perform_program) main_async (desktop inputs net)
  ≈ Ret (closed (play inputs (main, (net, []))), Ok tt).
Proof. apply (exec_interp _ (fuel_for inputs)), main_async_exec. Qed.


