(* ===== verification/Schedule.v ===== *)
(** The futures of the program on the executor: a spawned future is
    a task, the tree that is left of [Quote::search], and the executor
    polls it one node at a time between the clicks and the redraws of
    the window, each poll against the network of its moment.  The
    request of a fetch is made while the window goes on, and only the
    last poll brings a message to [update].  Every such schedule is a
    run of the step function [handle] of [Runtime], in which a fetch
    is one input. *)

From stdpp Require Import prelude strings.
From ITree Require Import ITree ITreeFacts.
From S2P Require Import Prelude Simulation Iced Quote Serde Fetcher Trees Async App Runtime Main Accounting Program.

Local Open Scope string_scope.
Local Open Scope list_scope.
Local Open Scope async_scope.

(** ** Tasks *)

(** A future on the executor: the tree that is left of it. *)
Definition Task : Type := itree fetchE Message.

(** A spawned action: its future, then the wrapping of its output. *)
Definition task_of (a : Action Future Message) : Task :=
  match a with
  | Perform future f => await output := spawn future in Ret (f output)
  end.

(** [Command::perform(Quote::search(), Message::QuoteFound)], spawned. *)
Definition search_task : Task := task_of search_action.

(** ** The loop and the executor *)

(** The application state, the tasks on the executor, what the window
    shows, and what the process has done to the outside. *)
Record Threads : Type := mkThreads {
  ui_state : Quotes;
  tasks : list Task;
  ui_title : string;
  ui_screen : Element Message;
  effects : list Effect
}.

Inductive Tick : Type :=
| UserClick (n : nat)
| ExecutorPoll (i : nat) (net : Network)
| WindowRedraw.

(** The start: [new], its command spawned, the first title and tree. *)
Definition launch : Threads :=
  let '(s, command) := new () in
  {| ui_state := s; tasks := task_of <$> command;
     ui_title := title s; ui_screen := view s; effects := [] |}.

(** One message through [update], its command spawned. *)
Definition post (message : Message) (c : Threads) : Threads :=
  let '(s, command) := update (ui_state c) message in
  {| ui_state := s; tasks := tasks c ++ (task_of <$> command);
     ui_title := ui_title c; ui_screen := ui_screen c; effects := effects c |}.

(** The threads with other tasks and effects. *)
Definition resume (c : Threads) (ts : list Task) (eff : list Effect) : Threads :=
  {| ui_state := ui_state c; tasks := ts;
     ui_title := ui_title c; ui_screen := ui_screen c; effects := eff |}.

(** One thing that happens: a click goes through [update]; the
    executor polls a task, which passes one node of its tree against
    the network of the moment and, when it returns, has its message
    go through [update]; the window is redrawn.  [None] when it cannot
    happen: no such button, no such task. *)
Definition tick (k : Tick) (c : Threads) : option Threads :=
  match k with
  | UserClick n =>
      message ← on_presses (ui_screen c) !! n;
      Some (post message c)
  | ExecutorPoll i net =>
      t ← tasks c !! i;
      let '(w, next) := advance perform t (net, effects c) in
      Some match next with
           | inl t' => resume c (<[i := t']> (tasks c)) w.2
           | inr message => post message (resume c (delete i (tasks c)) w.2)
           end
  | WindowRedraw =>
      Some {| ui_state := ui_state c; tasks := tasks c;
              ui_title := title (ui_state c); ui_screen := view (ui_state c);
              effects := effects c |}
  end.

(** The message that goes through [update] when something happens,
    if one does: the message of the button clicked, or the message a
    task returns at its last poll. *)
Definition delivered (k : Tick) (c : Threads) : option Message :=
  match k with
  | UserClick n => on_presses (ui_screen c) !! n
  | ExecutorPoll i net =>
      t ← tasks c !! i;
      match (advance perform t (net, effects c)).2 with
      | inl _ => None
      | inr message => Some message
      end
  | WindowRedraw => None
  end.

(** What something that happens shows: the message that goes through
    [update]. *)
Definition posted (k : Tick) (c : Threads) : list Message :=
  option_list (delivered k c).

Definition is_UserClick (k : Tick) : bool :=
  match k with UserClick _ => true | _ => false end.

Definition is_ExecutorPoll (k : Tick) : bool :=
  match k with ExecutorPoll _ _ => true | _ => false end.

(** The clicks among the things that happen. *)
Definition user_clicks (ticks : list Tick) : nat :=
  length (filter is_UserClick ticks).

(** ** Tasks in flight *)

(** A task that has made its request: on every network what is left
    of it returns [m] within [n] polls, the effects being [eff] now
    and [final] then, with no further request. *)
Record flying (n : nat) (t : Task) (eff final : list Effect) (m : Message)
    : Prop := mkFlying {
  fly_exec : forall net, exec perform n t (net, eff) = Some ((net, final), m);
  fly_requests : requests final = requests eff
}.

(** A task that has done nothing: its first node is the GET of the
    fixed URL, and what follows is decided by the answer. *)
Definition starting (t : Task) : Prop :=
  exists k, observe t = VisF (Get url) k
    /\ forall net eff,
         flying 3 (k (reqwest_get net url)) (eff ++ [Requested url])
           (eff ++ search_effects net) (QuoteFound (Quote_search net).1).

(** The effects when the fetches that made them have all completed
    in the step function. *)
Record settled (eff : list Effect) (inputs : list QuotesInput)
    (rt : QuotesRuntime) : Prop := mkSettled {
  set_lines : lines eff = stderr rt;
  set_requests : requests eff = replicate (completed inputs) url;
  set_order : in_order false eff = true
}.

(** Where the one task of the program is: there is none; it is
    spawned and has done nothing; or it has made its request, to a
    network [net0], and what is left of it writes the lines of the
    fetch on [net0] and returns its result. *)
Inductive phase (c : Threads) (inputs : list QuotesInput) (rt : QuotesRuntime)
    : Prop :=
| Idle :
    is_loading (state rt) = false -> tasks c = [] ->
    settled (effects c) inputs rt -> phase c inputs rt
| Spawned (t : Task) :
    is_loading (state rt) = true -> tasks c = [t] -> starting t ->
    settled (effects c) inputs rt -> phase c inputs rt
| Requesting (t : Task) (n : nat) (net0 : Network) (eff0 : list Effect) :
    is_loading (state rt) = true -> tasks c = [t] -> n <= 3 ->
    settled eff0 inputs rt ->
    (eff0 ++ [Requested url]) `prefix_of` effects c ->
    flying n t (effects c) (eff0 ++ search_effects net0)
      (QuoteFound (Quote_search net0).1) ->
    phase c inputs rt.

(** The threads [c] seen as the state [rt] of the step function after
    the inputs [inputs]. *)
Record serial (c : Threads) (inputs : list QuotesInput) (rt : QuotesRuntime)
    : Prop := mkSerial {
  ser_run : run handle inputs main = Some rt;
  ser_state : ui_state c = state rt;
  ser_title : ui_title c = window_title rt;
  ser_screen : ui_screen c = screen rt;
  ser_phase : phase c inputs rt
}.

(** The threads wait for a fetch, and whatever button the window
    still shows emits [Search]. *)
Definition waiting (c : Threads) : Prop :=
  is_loading (ui_state c) = true
  /\ forall n m, on_presses (ui_screen c) !! n = Some m -> m = Search.

(** The program after a failed first fetch, a redraw and a click on
    "Try again", and a schedule that leads there. *)
Definition retried : Threads :=
  {| ui_state := Loading; tasks := [search_task];
     ui_title := title Errored; ui_screen := view Errored;
     effects := [Requested url; Wrote (dbg "error" Request)] |}.

Definition fail_then_retry : list Tick :=
  [ExecutorPoll 0 (failing Request); ExecutorPoll 0 (failing Decode);
   ExecutorPoll 0 (failing Decode); WindowRedraw; UserClick 0].

(** [retried] once the window is redrawn: the loading screen, with
    the second fetch still to be polled. *)
Definition redrawn : Threads :=
  {| ui_state := Loading; tasks := [search_task];
     ui_title := title Loading; ui_screen := view Loading;
     effects := effects retried |}.

(** ** Lemmas *)

(** The task of the program starts with its request. *)
Lemma search_task_starting : starting search_task.
Proof.
  unfold starting, search_task, task_of, search_action, spawn, search_async,
    fetch_entry_async.
  rewrite !observe_bind. cbn. eexists. split; [reflexivity|].
  intros net eff. split.
  - intros net'. unfold search_effects.
    rewrite Quote_search_unfold, fetch_entry_cases. unfold reqwest_get.
    unfold Response_json_async.
    destruct (net url) as [response|error]; exec_steps;
      [rewrite !observe_bind; cbn;
       destruct (decode_body Entry_deserialize (body response)); exec_steps|];
      by rewrite <- ?(assoc_L (++)).
  - rewrite !requests_app. by destruct (search_effects_shape net) as [-> _].
Qed.

(** One poll of a task in flight: it returns its message with the
    effects final, or it stays in flight with one poll less to go. *)
Lemma flying_advance n t eff final m net w next :
  flying n t eff final m -> advance perform t (net, eff) = (w, next) ->
  w.1 = net
  /\ match next with
     | inr m' => m' = m /\ w.2 = eff /\ final = eff
     | inl t' => exists n', n = S n' /\ flying n' t' w.2 final m
     end.
Proof.
  intros [Hexec Hreq]. destruct n as [|n]; [by specialize (Hexec net)|].
  unfold advance. setoid_rewrite exec_S in Hexec.
  destruct (observe t) as [a|t'|X e k].
  - intros [= <- <-]. specialize (Hexec net). by injection Hexec as <- <-.
  - intros [= <- <-]. split; [done|]. by exists n.
  - destruct e as [u|response|line]; simpl in *; intros [= <- <-];
      (split; [done|]); exists n; (split; [done|]); cbn [snd].
    + exfalso. destruct (exec_perform_extends _ _ _ _ _ (Hexec net)) as [_ [more Hmore]].
      simpl in Hmore. rewrite Hmore, !requests_app in Hreq.
      apply (f_equal length) in Hreq. rewrite !length_app in Hreq. simpl in Hreq. lia.
    + by split.
    + split; [done|]. rewrite Hreq, requests_app. simpl. by rewrite app_nil_r.
Qed.

(** A poll adds to the effects. *)
Lemma advance_extends (t : Task) (w w' : Outside) next :
  advance perform t w = (w', next) -> w.2 `prefix_of` w'.2.
Proof.
  unfold advance. destruct (observe t) as [a|t'|X e k]; [by intros [= <- _]..|].
  destruct (perform_extends e w) as [_ Heff].
  destruct (perform X e w) as [w1 x]. by intros [= <- _].
Qed.

Lemma completed_snoc (inputs : list QuotesInput) (input : QuotesInput) :
  completed (inputs ++ [input])
  = completed inputs + (if is_Done input then 1 else 0).
Proof.
  unfold completed. rewrite filter_app, length_app. f_equal.
  rewrite filter_cons. by destruct (is_Done input).
Qed.

(** Inputs that are no completion and leave standard error alone
    leave the effects settled. *)
Lemma settled_snoc eff inputs input (rt rt' : QuotesRuntime) :
  is_Done input = false -> stderr rt' = stderr rt ->
  settled eff inputs rt -> settled eff (inputs ++ [input]) rt'.
Proof.
  intros Hin Herr [Hl Hr Ho]. split; [congruence| |done].
  by rewrite completed_snoc, Hin, Nat.add_0_r.
Qed.

(** So do they leave the phase, when the state and the tasks stay. *)
Lemma phase_snoc c c' inputs input (rt rt' : QuotesRuntime) :
  is_Done input = false -> stderr rt' = stderr rt -> state rt' = state rt ->
  tasks c' = tasks c -> effects c' = effects c ->
  phase c inputs rt -> phase c' (inputs ++ [input]) rt'.
Proof.
  intros Hin Herr Hst Ht He.
  intros [Hl H0 Hs|t Hl H1 Hstart Hs|t n net0 eff0 Hl H1 Hn Hs Hp Hf];
    rewrite <- ?Hst, <- ?Ht, <- ?He in *;
    [ apply Idle | apply (Spawned _ _ _ t) | apply (Requesting _ _ _ t n net0 eff0) ];
    eauto using settled_snoc.
Qed.

(** The launch is the start of the step function. *)
Lemma launch_serial : serial launch [] main.
Proof.
  split; try done. apply (Spawned _ _ _ search_task); try done.
  apply search_task_starting.
Qed.

(** What [post] leaves, field by field. *)
Lemma post_state m c : ui_state (post m c) = (update (ui_state c) m).1.
Proof. unfold post. by destruct (update _ _). Qed.

Lemma post_tasks m c :
  tasks (post m c) = tasks c ++ (task_of <$> (update (ui_state c) m).2).
Proof. unfold post. by destruct (update _ _). Qed.

Lemma post_title m c : ui_title (post m c) = ui_title c.
Proof. unfold post. by destruct (update _ _). Qed.

Lemma post_screen m c : ui_screen (post m c) = ui_screen c.
Proof. unfold post. by destruct (update _ _). Qed.

Lemma post_effects m c : effects (post m c) = effects c.
Proof. unfold post. by destruct (update _ _). Qed.

(** A click is a click of the step function. *)
Lemma serial_UserClick (n : nat) c c' inputs (rt : QuotesRuntime) :
  serial c inputs rt -> tick (UserClick n) c = Some c' ->
  exists rt',
    serial c' (inputs ++ [Press n]) rt'
    /\ delivered (UserClick n) c = delivers (Press n) rt.
Proof.
  intros [Hrun Hs Ht Hsc Hph] Htick. cbn [tick delivered delivers] in *.
  rewrite Hsc in *.
  destruct (on_presses (screen rt) !! n) as [m|] eqn:Hm; simplify_eq/=.
  pose proof (run_coherent _ _ _ main_coherent Hrun) as Hc.
  apply (coherent_on_presses _ _ _ Hc) in Hm as Hsearch. subst m.
  exists (dispatch Search rt). split; [|done]. split.
  - by rewrite run_snoc, Hrun; cbn [mbind option_bind]; rewrite handle_Press, Hm.
  - by rewrite post_state, dispatch_state, Hs.
  - by rewrite post_title, dispatch_window_title.
  - by rewrite post_screen, dispatch_screen.
  - destruct (is_loading (state rt)) eqn:Hl.
    + apply (phase_snoc c _ _ _ rt);
        rewrite ?dispatch_stderr, ?dispatch_state, ?post_tasks, ?post_effects, ?Hs;
        try done; destruct (state rt); try done. simpl. by rewrite app_nil_r.
    + destruct Hph as [_ H0 Hset|t Hl'|t ? ? ? Hl']; [|congruence..].
      apply (Spawned _ _ _ search_task).
      * rewrite dispatch_state. unfold_app. by destruct (state rt).
      * rewrite post_tasks, H0, Hs. by destruct (state rt).
      * apply search_task_starting.
      * rewrite post_effects.
        apply (settled_snoc _ _ _ rt); [done|apply dispatch_stderr|done].
Qed.

(** A redraw is a redraw of the step function. *)
Lemma serial_WindowRedraw c c' inputs (rt : QuotesRuntime) :
  serial c inputs rt -> tick WindowRedraw c = Some c' ->
  serial c' (inputs ++ [Redraw]) (refresh rt).
Proof.
  intros [Hrun Hs Ht Hsc Hph] [= <-]. split; simpl; unfold_app; try congruence.
  - by rewrite run_snoc, Hrun.
  - by apply (phase_snoc c _ _ _ rt).
Qed.

(** The effects after a fetch that has completed. *)
Lemma settled_Done eff0 inputs (rt rt' : QuotesRuntime) (net0 : Network) :
  settled eff0 inputs rt -> stderr rt' = stderr rt ++ (Quote_search net0).2 ->
  settled (eff0 ++ search_effects net0) (inputs ++ [Done 0 net0]) rt'.
Proof.
  intros [Hl Hr Ho] Herr.
  destruct (search_effects_shape net0) as (Hreq & _ & Hlines & _). split.
  - by rewrite lines_app, Hl, Hlines, Herr.
  - by rewrite requests_app, Hr, Hreq, completed_snoc, replicate_add.
  - by rewrite in_order_search_effects.
Qed.

(** The last poll of a task is the completion of its fetch in the
    step function, on the network of its request. *)
Lemma serial_complete c inputs (rt : QuotesRuntime) (net0 : Network) eff0 :
  serial c inputs rt -> is_loading (state rt) = true -> settled eff0 inputs rt ->
  exists rt',
    serial (post (QuoteFound (Quote_search net0).1)
              (resume c [] (eff0 ++ search_effects net0)))
           (inputs ++ [Done 0 net0]) rt'.
Proof.
  intros [Hrun Hs Ht Hsc _] Hl Hset.
  pose proof (run_coherent _ _ _ main_coherent Hrun) as Hc.
  pose proof (coh_pending _ Hc) as Hp. rewrite Hl in Hp.
  eexists. split.
  - rewrite run_snoc, Hrun. cbn [mbind option_bind].
    rewrite handle_Done, Hp. cbn [lookup list_lookup fmap option_fmap option_map].
    by rewrite complete_search_action.
  - rewrite post_state, dispatch_state. cbn [resume ui_state state fst].
    by rewrite Hs.
  - by rewrite post_title, dispatch_window_title.
  - by rewrite post_screen, dispatch_screen.
  - apply Idle.
    + rewrite dispatch_state. simpl. unfold_app.
      by destruct (Quote_search net0) as [[q|e] out].
    + rewrite post_tasks. simpl. by destruct (Quote_search net0) as [[q|e] out].
    + rewrite post_effects. apply (settled_Done _ _ rt); [done|].
      by rewrite dispatch_stderr.
Qed.

(** A poll is no input of the step function, or the completion of the
    fetch. *)
Lemma serial_ExecutorPoll (i : nat) (net : Network) c c' inputs
    (rt : QuotesRuntime) :
  serial c inputs rt -> tick (ExecutorPoll i net) c = Some c' ->
  (serial c' inputs rt /\ delivered (ExecutorPoll i net) c = None)
  \/ (exists net0 rt',
        serial c' (inputs ++ [Done 0 net0]) rt'
        /\ delivered (ExecutorPoll i net) c
           = Some (QuoteFound (Quote_search net0).1)).
Proof.
  intros Hser Htick. pose proof Hser as [Hrun Hs Ht Hsc Hph].
  cbn [tick delivered] in *.
  destruct Hph as [Hl H0 Hset|t Hl H1 Hstart Hset|t n net0 eff0 Hl H1 Hn Hset Hpre Hfly];
    rewrite ?H0, ?H1 in *; destruct i as [|i]; try done; simpl in Htick |- *.
  - destruct Hstart as (k & Hobs & Hk). unfold advance in *.
    rewrite Hobs in *. simpl in Htick |- *. injection Htick as <-.
    left. split; [|done]. split; simpl; try done.
    apply (Requesting _ _ _ (k (reqwest_get net url)) 3 net (effects c));
      by simpl.
  - destruct (advance perform t (net, effects c)) as [w next] eqn:Hadv.
    injection Htick as <-.
    destruct (flying_advance _ _ _ _ _ _ _ _ Hfly Hadv) as [Hnet Hnext].
    destruct next as [t'|m].
    + destruct Hnext as (n' & -> & Hfly'). left. split; [|done].
      split; simpl; try done.
      apply (Requesting _ _ _ t' n' net0 eff0); simpl; try done; [lia|].
      etrans; [done|]. by apply advance_extends in Hadv.
    + destruct Hnext as (-> & -> & <-). right. exists net0.
      destruct (serial_complete c inputs rt net0 eff0) as [rt' Hrt']; [done..|].
      by exists rt'.
Qed.

(** The runs of two serial states, one after the other. *)
Lemma serial_more c c' inputs more (rt rt' : QuotesRuntime) :
  serial c inputs rt -> serial c' (inputs ++ more) rt' ->
  run handle more rt = Some rt'.
Proof. intros [Hrun _ _ _ _] [Hrun' _ _ _ _]. by rewrite run_app, Hrun in Hrun'. Qed.

(** What one more input shows. *)
Lemma serial_snoc_trace c c' inputs input (rt rt' : QuotesRuntime) :
  serial c inputs rt -> serial c' (inputs ++ [input]) rt' ->
  handle input rt = Some rt'
  /\ trace handle delivery [input] rt = delivery input rt.
Proof.
  intros Hser Hser'. pose proof (serial_more _ _ _ _ _ _ Hser Hser') as Hrun.
  cbn [run] in Hrun. destruct (handle input rt) as [rt1|] eqn:Hh; [|done].
  split; [done|]. by eapply trace_singleton.
Qed.

(** One thing that happens to the threads is at most one input of the
    step function, a click when it is a click, and the same message
    goes through [update]. *)
Lemma serial_tick (k : Tick) c c' inputs (rt : QuotesRuntime) :
  serial c inputs rt -> tick k c = Some c' ->
  exists more rt',
    serial c' (inputs ++ more) rt'
    /\ clicked more = (if is_UserClick k then 1 else 0)
    /\ trace handle delivery more rt = posted k c.
Proof.
  intros Hser Htick. unfold posted. destruct k as [n|i net|].
  - destruct (serial_UserClick _ _ _ _ _ Hser Htick) as (rt' & Hrt' & ->).
    exists [Press n], rt'. split_and!; [done..|].
    exact (proj2 (serial_snoc_trace _ _ _ _ _ _ Hser Hrt')).
  - destruct (serial_ExecutorPoll _ _ _ _ _ _ Hser Htick)
      as [[Hrt' ->]|(net0 & rt' & Hrt' & ->)].
    + exists [], rt. by rewrite app_nil_r.
    + exists [Done 0 net0], rt'. split_and!; [done..|].
      destruct (serial_snoc_trace _ _ _ _ _ _ Hser Hrt') as [Hh Htr].
      pose proof (run_coherent _ _ _ main_coherent (ser_run _ _ _ Hser)) as Hc.
      destruct (handle_Done_coherent _ _ _ _ Hc Hh) as [Hp _].
      etrans; [exact Htr|]. unfold delivery. cbn [delivers]. rewrite Hp. simpl.
      by destruct (Quote_search net0).
  - pose proof (serial_WindowRedraw c _ _ _ Hser Htick) as Hrt'.
    exists [Redraw], (refresh rt). split_and!; [done..|].
    exact (proj2 (serial_snoc_trace _ _ _ _ _ _ Hser Hrt')).
Qed.

(** Every schedule is a run of the step function that delivers the
    same messages. *)
Lemma run_serial (ticks : list Tick) c c' inputs (rt : QuotesRuntime) :
  serial c inputs rt -> run tick ticks c = Some c' ->
  exists more rt',
    serial c' (inputs ++ more) rt'
    /\ clicked more = user_clicks ticks
    /\ trace handle delivery more rt = trace tick posted ticks c.
Proof.
  revert c inputs rt. induction ticks as [|k ticks IH]; intros c inputs rt Hser.
  - intros [= <-]. exists [], rt. by rewrite app_nil_r.
  - cbn [run trace]. destruct (tick k c) as [c1|] eqn:Htick; [|done].
    cbn [mbind option_bind]. intros Hrun.
    destruct (serial_tick _ _ _ _ _ Hser Htick) as (more1 & rt1 & Hser1 & Hc1 & <-).
    destruct (IH _ _ _ Hser1 Hrun) as (more & rt' & Hser' & Hc & <-).
    exists (more1 ++ more), rt'. rewrite (assoc_L (++)). split_and!; [done| |].
    + unfold clicked, user_clicks in *.
      rewrite filter_app, length_app, Hc1, Hc, filter_cons.
      by destruct (is_UserClick k).
    + apply trace_app. by eapply serial_more.
Qed.

(** What the phases say of the tasks and the effects. *)
Lemma phase_facts c inputs (rt : QuotesRuntime) :
  phase c inputs rt ->
  length (tasks c) = in_flight (state rt)
  /\ in_order false (effects c) = true
  /\ stderr rt `prefix_of` lines (effects c)
  /\ (tasks c = [] ->
      lines (effects c) = stderr rt
      /\ requests (effects c) = replicate (completed inputs) url).
Proof.
  unfold in_flight.
  intros [Hl H0 [Hlines Hreq Hord]|t Hl H1 _ [Hlines Hreq Hord]
         |t n net0 eff0 Hl H1 _ [Hlines Hreq Hord] Hpre Hfly];
    rewrite Hl, ?H0, ?H1; split_and!; try done; try by rewrite Hlines.
  - destruct (exec_perform_extends _ _ _ _ _ (fly_exec _ _ _ _ _ Hfly net0))
      as [_ Hfinal].
    simpl in Hfinal. apply (in_order_prefix _ _ _ Hfinal).
    by rewrite in_order_search_effects.
  - rewrite <- Hlines. apply lines_prefix. etrans; [|done]. by apply prefix_app_r.
Qed.

(** Every schedule from the launch is a run from [main]. *)
Lemma launch_run_serial (ticks : list Tick) (c : Threads) :
  run tick ticks launch = Some c ->
  exists inputs rt,
    serial c inputs rt
    /\ clicked inputs = user_clicks ticks
    /\ trace handle delivery inputs main = trace tick posted ticks launch.
Proof. intros Hrun. exact (run_serial _ _ _ _ _ launch_serial Hrun). Qed.

(** The polls of a task in flight bring its message to [update]. *)
Lemma flying_polls (n : nat) c t final m (nets : list Network) :
  tasks c = [t] -> flying n t (effects c) final m -> n <= length nets ->
  exists k, k <= n
    /\ run tick (ExecutorPoll 0 <$> take k nets) c = Some (post m (resume c [] final)).
Proof.
  revert c t nets. induction n as [|n IH]; intros c t nets Ht Hfly Hlen.
  { destruct Hfly as [Hexec _]. by specialize (Hexec (failing Request)). }
  destruct nets as [|net nets]; [simpl in Hlen; lia|].
  destruct (advance perform t (net, effects c)) as [w next] eqn:Hadv.
  destruct (flying_advance _ _ _ _ _ _ _ _ Hfly Hadv) as [_ Hnext].
  assert (tick (ExecutorPoll 0 net) c
          = Some match next with
                 | inl t' => resume c [t'] w.2
                 | inr m' => post m' (resume c [] w.2)
                 end) as Htick.
  { cbn [tick]. rewrite Ht. simpl. rewrite Hadv. by destruct next. }
  destruct next as [t'|m'].
  - destruct Hnext as (n' & [= <-] & Hfly').
    destruct (IH (resume c [t'] w.2) t' nets) as (k & Hk & Hrun);
      [done|done|simpl in Hlen; lia|].
    exists (S k). split; [lia|]. rewrite firstn_cons, fmap_cons. cbn [run].
    rewrite Htick. exact Hrun.
  - destruct Hnext as (-> & Hw & Hfinal). exists 1. split; [lia|].
    rewrite firstn_cons, fmap_cons. cbn [run]. by rewrite Htick, Hw, Hfinal, take_0.
Qed.

(** ** Waiting for a fetch *)

(** Nothing but a poll changes what a waiting program has in flight
    and has done, and it goes on waiting. *)
Lemma waiting_tick (k : Tick) (c c' : Threads) :
  is_ExecutorPoll k = false -> waiting c -> tick k c = Some c' ->
  waiting c' /\ tasks c' = tasks c /\ effects c' = effects c.
Proof.
  intros Hk [Hl Hb]. destruct k as [n|i net|]; [|done|]; simpl.
  - destruct (on_presses (ui_screen c) !! n) as [m|] eqn:Hm; [|done].
    rewrite (Hb _ _ Hm). intros [= <-].
    rewrite post_tasks, post_effects. unfold waiting.
    rewrite post_state, post_screen.
    destruct (ui_state c); [|done..]. simpl. by rewrite app_nil_r.
  - intros [= <-]. simpl. split; [|done]. split; [done|].
    destruct (ui_state c); [|done..]. by intros n m.
Qed.

Lemma waiting_run (ticks : list Tick) (c c' : Threads) :
  Forall (fun k => is_ExecutorPoll k = false) ticks ->
  waiting c -> run tick ticks c = Some c' ->
  waiting c' /\ tasks c' = tasks c /\ effects c' = effects c.
Proof.
  intros Hticks. revert c. induction Hticks as [|k ticks Hk _ IH]; intros c Hw.
  - by intros [= <-].
  - simpl. destruct (tick k c) as [c1|] eqn:Htick; [|done]. simpl.
    destruct (waiting_tick _ _ _ Hk Hw Htick) as (Hw1 & <- & <-). by apply IH.
Qed.

(** A schedule from the launch that ends in [Loading] ends waiting. *)
Lemma launch_run_waiting (ticks : list Tick) (c : Threads) :
  run tick ticks launch = Some c -> is_loading (ui_state c) = true -> waiting c.
Proof.
  intros (inputs & rt & [Hrun Hs Ht Hsc Hph] & _ & _)%launch_run_serial Hl.
  split; [done|]. intros n m. rewrite Hsc. apply coherent_on_presses.
  exact (run_coherent _ _ _ main_coherent Hrun).
Qed.

(** ** Theorems *)

(** C12: polling the futures between the inputs of the window changes
    nothing the step function can tell.  Every schedule of clicks,
    redraws and polls from the launch of the program, each poll
    against a network of its own, is a run of [handle] from [main]
    with the same number of clicks: the state, the title bar and the
    screen are those of the run; there is one task exactly when the
    state is [Loading]; the lines written begin with standard error
    of the run; and when no task is left they are standard error of
    the run, and one request went to the fixed URL for every
    completion. *)
Theorem schedule_serializable (ticks : list Tick) (c : Threads) :
  run tick ticks launch = Some c ->
  exists inputs rt,
    run handle inputs main = Some rt
    /\ clicked inputs = user_clicks ticks
    /\ ui_state c = state rt
    /\ ui_title c = window_title rt
    /\ ui_screen c = screen rt
    /\ length (tasks c) = in_flight (state rt)
    /\ stderr rt `prefix_of` lines (effects c)
    /\ (tasks c = [] ->
        lines (effects c) = stderr rt
        /\ requests (effects c) = replicate (completed inputs) url).
Proof.
  intros (inputs & rt & [Hrun Hs Ht Hsc Hph] & Hclicks & _)%launch_run_serial.
  destruct (phase_facts _ _ _ Hph) as (? & _ & ? & ?).
  by exists inputs, rt.
Qed.

Lemma schedule_serializable_witness :
  exists inputs rt,
    run handle inputs main = Some rt
    /\ clicked inputs = user_clicks fail_then_retry
    /\ ui_state retried = state rt
    /\ ui_title retried = window_title rt
    /\ ui_screen retried = screen rt
    /\ length (tasks retried) = in_flight (state rt)
    /\ stderr rt `prefix_of` lines (effects retried)
    /\ (tasks retried = [] ->
        lines (effects retried) = stderr rt
        /\ requests (effects retried) = replicate (completed inputs) url).
Proof. apply (schedule_serializable fail_then_retry retried). reflexivity. Defined.

(** C16: the fetches never overlap, however the executor and the window
    interleave.  In every state a schedule reaches there is one task
    on the executor when the state is [Loading] and none otherwise,
    and what the process has done is in order: every request went to
    the fixed URL, and every line follows the request of its fetch
    directly, one line at the most. *)
Theorem schedule_in_order (ticks : list Tick) (c : Threads) :
  run tick ticks launch = Some c ->
  length (tasks c) = in_flight (ui_state c)
  /\ in_order false (effects c) = true.
Proof.
  intros (inputs & rt & [Hrun Hs Ht Hsc Hph] & _ & _)%launch_run_serial.
  destruct (phase_facts _ _ _ Hph) as (? & ? & _). by rewrite Hs.
Qed.

Lemma schedule_in_order_witness :
  length (tasks retried) = in_flight (ui_state retried)
  /\ in_order false (effects retried) = true.
Proof. apply (schedule_in_order fail_then_retry retried). reflexivity. Defined.

(** The request of a fetch is out while the state is still [Loading]:
    the first poll of the first task makes it. *)
Example request_while_loading (net : Network) :
  (fun c => (ui_state c, effects c)) <$> run tick [ExecutorPoll 0 net] launch
  = Some (Loading, [Requested url]).
Proof. reflexivity. Qed.

(** C19: a fetch in flight completes when the executor polls it.  From
    every state a schedule reaches in which the state is [Loading],
    at most four polls of the task, against any networks, bring the
    result of the fetch to [update]: the state is then [Loaded] or
    [Errored] and no task is left. *)
Theorem fetch_completes (ticks : list Tick) (c : Threads) (nets : list Network) :
  run tick ticks launch = Some c -> is_loading (ui_state c) = true ->
  length nets = 4 ->
  exists k c',
    k <= 4
    /\ run tick (ExecutorPoll 0 <$> take k nets) c = Some c'
    /\ is_loading (ui_state c') = false /\ tasks c' = [].
Proof.
  intros (inputs & rt & [Hrun Hs Ht Hsc Hph] & _ & _)%launch_run_serial Hl Hlen.
  assert (forall r final,
            is_loading (ui_state (post (QuoteFound r) (resume c [] final))) = false
            /\ tasks (post (QuoteFound r) (resume c [] final)) = []) as Hpost.
  { intros r final. rewrite post_state, post_tasks. simpl.
    by destruct r, (ui_state c). }
  rewrite Hs in Hl.
  destruct Hph as [Hl'|t _ H1 (k & Hobs & Hk) _|t n net0 eff0 _ H1 Hn _ _ Hfly];
    [congruence| |].
  - destruct nets as [|net nets]; [done|]. injection Hlen as Hlen.
    destruct (flying_polls 3 (resume c [k (reqwest_get net url)]
                                (effects c ++ [Requested url])) _ _ _ nets
                eq_refl (Hk net (effects c))) as (j & Hj & Hpolls); [lia|].
    exists (S j). eexists. split; [lia|]. split; [|apply Hpost].
    rewrite firstn_cons, fmap_cons. cbn [run tick]. rewrite H1. simpl.
    unfold advance. rewrite Hobs. exact Hpolls.
  - destruct (flying_polls n c _ _ _ nets H1 Hfly) as (j & Hj & Hpolls); [lia|].
    exists j. eexists. split; [lia|]. split; [exact Hpolls|apply Hpost].
Qed.

Lemma fetch_completes_witness :
  exists k c',
    k <= 4
    /\ run tick (ExecutorPoll 0 <$> take k (replicate 4 (failing Request))) launch
       = Some c'
    /\ is_loading (ui_state c') = false /\ tasks c' = [].
Proof. by apply (fetch_completes [] launch (replicate 4 (failing Request))). Defined.

(** C20: a fetch that is not polled to its end is never given up.  From
    every state a schedule reaches in which the state is [Loading],
    whatever the user clicks and however often the window is redrawn,
    the state stays [Loading], the task of the fetch stays on the
    executor as it is, and nothing more is done to the outside: only
    the executor ends the wait. *)
Theorem loading_until_polled (ticks more : list Tick) (c c' : Threads) :
  run tick ticks launch = Some c -> is_loading (ui_state c) = true ->
  Forall (fun k => is_ExecutorPoll k = false) more ->
  run tick more c = Some c' ->
  ui_state c' = Loading /\ tasks c' = tasks c /\ effects c' = effects c.
Proof.
  intros Hrun Hl Hmore Hrun'.
  destruct (waiting_run _ _ _ Hmore (launch_run_waiting _ _ Hrun Hl) Hrun')
    as ([Hl' _] & ? & ?).
  split; [|done]. by destruct (ui_state c').
Qed.

Lemma loading_until_polled_witness :
  ui_state redrawn = Loading /\ tasks redrawn = tasks retried
  /\ effects redrawn = effects retried.
Proof.
  apply (loading_until_polled fail_then_retry [UserClick 0; WindowRedraw] retried).
  - reflexivity.
  - reflexivity.
  - by repeat constructor.
  - reflexivity.
Defined.
