(* ===== verification/Refinement.v ===== *)
(** The program against the specification, end to end.  The step
    function of the run loop and the loop with its executor are
    machines that show the events of the specification, the messages
    that go through [update]; each simulates the next, down to the
    system of the specification, and so every behaviour of the program
    is a behaviour the specification allows. *)

From stdpp Require Import prelude strings.
From S2P Require Import Prelude Simulation Iced Quote Serde Fetcher Trees Async App Spec Runtime Main Accounting Program Schedule.

Local Open Scope list_scope.

(** ** The machines *)

(** The run loop as a step function, from [main]. *)
Definition runtime : Machine Event :=
  mkMachine handle (fun input rt => abs_event <$> delivery input rt) main.

(** The run loop with the executor beside it, from the launch. *)
Definition threads : Machine Event :=
  mkMachine tick (fun k c => abs_event <$> posted k c) launch.

(** ** The relations *)

(** A state of the step function as a state of the system: its
    application state and the number of its futures in flight. *)
Definition abstracts (rt : QuotesRuntime) (c : SystemState) : Prop :=
  coherent rt /\ c = (abs_state (state rt), length (pending rt)).

(** The threads as a state of the step function, after some inputs. *)
Definition serialized (c : Threads) (rt : QuotesRuntime) : Prop :=
  exists inputs, serial c inputs rt.

(** ** Lemmas *)

(** A message through [update] is its event through the table. *)
Lemma spec_next_dispatch (message : Message) (rt : QuotesRuntime) :
  spec_next (abs_state (state rt)) (abs_event message)
  = (abs_state (state (dispatch message rt)),
     length (pending (dispatch message rt)) - length (pending rt)).
Proof.
  rewrite update_spec_next, dispatch_state, dispatch_pending, length_app.
  unfold_app. unfold abs_effect. f_equal. lia.
Qed.

(** A click of the step function is a [SearchRequested] of the
    system. *)
Lemma abstracts_Press (n : nat) (rt rt' : QuotesRuntime) :
  coherent rt -> handle (Press n) rt = Some rt' ->
  system_step SearchRequested (abs_state (state rt), length (pending rt))
  = Some (abs_state (state rt'), length (pending rt'))
  /\ delivery (Press n) rt = [Search].
Proof.
  intros Hc Hh. rewrite handle_Press in Hh.
  apply fmap_Some in Hh as (m & Hm & ->).
  pose proof (coherent_on_presses _ _ _ Hc Hm) as ->.
  unfold delivery, system_step. cbn [delivers fst snd]. rewrite Hm. split; [|done].
  pose proof (spec_next_dispatch Search rt) as Hnext. cbn [abs_event] in Hnext.
  rewrite Hnext, dispatch_pending, length_app. do 2 f_equal. lia.
Qed.

(** A completion of the step function is a [FetchCompleted] of the
    system, with the result of the fetch. *)
Lemma abstracts_Done (i : nat) (net : Network) (rt rt' : QuotesRuntime) :
  coherent rt -> handle (Done i net) rt = Some rt' ->
  system_step (FetchCompleted (Quote_search net).1)
    (abs_state (state rt), length (pending rt))
  = Some (abs_state (state rt'), length (pending rt'))
  /\ delivery (Done i net) rt = [QuoteFound (Quote_search net).1].
Proof.
  intros Hc Hh. destruct (handle_Done_coherent _ _ _ _ Hc Hh) as [Hp _].
  rewrite handle_Done, Hp in Hh. simpl in Hh. injection Hh as <-.
  unfold delivery. cbn [delivers]. rewrite Hp. simpl.
  rewrite (coh_pending _ Hc) in *.
  destruct (is_loading (state rt)) eqn:Hl, i as [|i]; try done.
  by destruct (state rt), (Quote_search net) as [[q|e] out].
Qed.

(** The step function simulates the system of the specification. *)
Lemma runtime_simulates_system : simulates runtime system abstracts.
Proof.
  intros input rt rt' c [Hc ->] Hh. simpl in Hh |- *.
  pose proof (handle_coherent _ _ _ Hc Hh) as Hc'.
  destruct input as [n|i net|].
  - destruct (abstracts_Press _ _ _ Hc Hh) as [Hstep ->].
    exists [SearchRequested], (abs_state (state rt'), length (pending rt')).
    cbn [m_step m_out system runtime run trace]. by rewrite Hstep.
  - destruct (abstracts_Done _ _ _ _ Hc Hh) as [Hstep ->].
    exists [FetchCompleted (Quote_search net).1],
      (abs_state (state rt'), length (pending rt')).
    cbn [m_step m_out system runtime run trace]. by rewrite Hstep.
  - injection Hh as <-. by exists [], (abs_state (state rt), length (pending rt)).
Qed.

(** The loop with its executor simulates the step function. *)
Lemma threads_simulate_runtime : simulates threads runtime serialized.
Proof.
  intros k c c' rt [inputs Hser] Htick. simpl in Htick |- *.
  destruct (serial_tick _ _ _ _ _ Hser Htick) as (more & rt' & Hser' & _ & Htr).
  exists more, rt'. split_and!.
  - by eapply serial_more.
  - by exists (inputs ++ more).
  - by rewrite (trace_fmap handle delivery), Htr.
Qed.

Lemma main_abstracts : abstracts main system_init.
Proof. split; [apply main_coherent|done]. Qed.

Lemma launch_serialized : serialized launch main.
Proof. exists []. apply launch_serial. Qed.

(** The run of the system that a run of a machine is, when the
    machine simulates the system. *)
Lemma simulates_system (M : Machine Event) R ins s (c : SystemState) :
  simulates M system R -> R (m_init M) system_init ->
  run (m_step M) ins (m_init M) = Some s ->
  exists c',
    run system_step (trace (m_step M) (m_out M) ins (m_init M)) system_init = Some c'
    /\ R s c'.
Proof.
  intros Hsim Hinit Hrun.
  destruct (simulates_run _ _ _ _ _ _ _ Hsim Hinit Hrun) as (es & c' & Hes & HR & Htr).
  simpl in *. rewrite (system_trace _ _ _ Hes) in Htr. subst es. by exists c'.
Qed.

(** ** Theorems *)

(** C10: the running program refines the system of the specification.
    Along every run of the step function from [main], the messages
    that go through [update] are, as events, a run of the
    specification's system from its start ([Loading] with one fetch in
    flight): the system accepts every one of them, a completion only
    while a fetch is in flight, and it ends in the state and with the
    number of fetches in flight that the program has.  So what
    section 5 promises holds of the program: at most one fetch is in
    flight, and one is exactly when the state is [Loading]. *)
Theorem main_refines_system (inputs : list QuotesInput) (rt : QuotesRuntime) :
  run handle inputs main = Some rt ->
  run system_step (abs_event <$> trace handle delivery inputs main) system_init
  = Some (abs_state (state rt), length (pending rt))
  /\ single_fetch (abs_state (state rt), length (pending rt)).
Proof.
  intros Hrun.
  destruct (simulates_system runtime _ _ _ system_init runtime_simulates_system
              main_abstracts Hrun) as (c' & Hc' & _ & ->).
  simpl in Hc'. rewrite (trace_fmap handle delivery) in Hc'. split; [done|].
  apply system_single_fetch. by eexists.
Qed.

Lemma main_refines_system_witness :
  run system_step
    (abs_event <$> trace handle delivery
                     [completes (failing Request); redraws; clicks] main)
    system_init
  = Some (abs_state (state retrying), length (pending retrying))
  /\ single_fetch (abs_state (state retrying), length (pending retrying)).
Proof.
  apply (main_refines_system [completes (failing Request); redraws; clicks] retrying).
  reflexivity.
Defined.

(** C13: so does the program with its executor, whatever the schedule.
    Along every schedule of clicks, redraws and polls from the launch,
    the messages that reach [update] are, as events, a run of the
    specification's system that ends in the state of the program,
    with as many fetches in flight as there are tasks on the
    executor. *)
Theorem schedule_refines_system (ticks : list Tick) (c : Threads) :
  run tick ticks launch = Some c ->
  run system_step (abs_event <$> trace tick posted ticks launch) system_init
  = Some (abs_state (ui_state c), length (tasks c)).
Proof.
  intros Hrun.
  destruct (simulates_system threads _ _ _ system_init
              (simulates_trans _ _ _ _ _ threads_simulate_runtime
                 runtime_simulates_system)
              (ex_intro _ main (conj launch_serialized main_abstracts)) Hrun)
    as (c' & Hc' & rt & [inputs Hser] & Hc & ->).
  simpl in Hc'. rewrite (trace_fmap tick posted) in Hc'. rewrite Hc'.
  destruct (phase_facts _ _ _ (ser_phase _ _ _ Hser)) as (Htasks & _).
  rewrite (ser_state _ _ _ Hser), Htasks, (coh_pending _ Hc).
  unfold in_flight. by destruct (is_loading (state rt)).
Qed.

Lemma schedule_refines_system_witness :
  run system_step (abs_event <$> trace tick posted fail_then_retry launch)
    system_init
  = Some (abs_state (ui_state retried), length (tasks retried)).
Proof. apply (schedule_refines_system fail_then_retry retried). reflexivity. Defined.

(** Every behaviour of the program is a behaviour of the
    specification.  The lists of events that the loop with its
    executor can show, on any schedule and any networks, are lists of
    events that the run loop as a step function can show, and these
    are lists that the specification's system accepts: refinement is
    transitive, and each layer simulates the next. *)
Theorem threads_refine_system :
  refines threads runtime /\ refines runtime system /\ refines threads system.
Proof.
  assert (refines threads runtime) as H1
    by exact (simulates_refines _ _ _ threads_simulate_runtime launch_serialized).
  assert (refines runtime system) as H2
    by exact (simulates_refines _ _ _ runtime_simulates_system main_abstracts).
  split_and!; [done..|]. by etrans.
Qed.
